(** * Throttle rate limiter: token bucket and sliding-window log over Redis

    A shallow embedding of [app/algorithms/token_bucket.py],
    [app/algorithms/sliding_window.py], [app/redis_client.py] and the reset
    endpoint of [app/main.py].

    Conventions of the embedding.
    - Lua and Python floating-point numbers are exact rationals ([Q]); the
      only rounding that is kept is the explicit [string.format("%.3f", _)]
      of the scripts, because the callers see its effect.
    - The Redis keyspace is a finite map from key names to typed entries
      (a hash holding the two bucket fields, or a sorted set from member to
      score) together with the time-to-live last set by [EXPIRE].
    - A Lua script is a state-and-error computation over the keyspace; a
      Python coroutine of the limiters is a state-and-error computation over
      the client (connection flag and keyspace).  Clock readings, the
      random nonce and the outcome of the network round trip are explicit
      arguments.  Logging has no effect on results and is left out. *)

From Stdlib Require Import ZArith QArith Qround Lia Lqa.
From stdpp Require Import gmap strings pretty list fin_maps.

Local Open Scope Z_scope.

(** ** Exceptions *)

Inductive exn : Type :=
  | ConnectionError (msg : string)      (* redis.exceptions.ConnectionError *)
  | TimeoutError (msg : string)         (* redis.exceptions.TimeoutError *)
  | ResponseError (msg : string)        (* redis.exceptions.ResponseError *)
  | RuntimeError (msg : string)
  | ZeroDivisionError
  | HTTPException (status_code : Z) (detail : string).

(** [isinstance(e, RedisError)] *)
Definition is_RedisError (e : exn) : bool :=
  match e with
  | ConnectionError _ | TimeoutError _ | ResponseError _ => true
  | _ => false
  end.

(** [isinstance(e, HTTPException)] *)
Definition is_HTTPException (e : exn) : bool :=
  match e with
  | HTTPException _ _ => true
  | _ => false
  end.

(** ** State-and-error computations *)

Module SE.

Definition t (S A : Type) : Type := S -> (exn + A) * S.

Definition ret {S A} (a : A) : t S A := fun s => (inr a, s).

Definition raise {S A} (e : exn) : t S A := fun s => (inl e, s).

Definition bind {S A B} (m : t S A) (k : A -> t S B) : t S B :=
  fun s =>
    match m s with
    | (inl e, s') => (inl e, s')
    | (inr a, s') => k a s'
    end.

(** One [except cls as e: h e] clause: the class test and the handler. *)
Definition clause (S A : Type) : Type := (exn -> bool) * (exn -> t S A).

(** The first clause whose class matches handles the exception; with no
    match it propagates. *)
Fixpoint handle {S A} (clauses : list (clause S A)) (e : exn) : t S A :=
  match clauses with
  | [] => raise e
  | (cls, h) :: rest => if cls e then h e else handle rest e
  end.

(** [try: m  except ...: ...] *)
Definition try_except {S A} (m : t S A) (clauses : list (clause S A))
  : t S A :=
  fun s =>
    match m s with
    | (inl e, s') => handle clauses e s'
    | (inr a, s') => (inr a, s')
    end.

(** [except Exception] matches every exception of the model. *)
Definition is_Exception (e : exn) : bool := true.

End SE.

Declare Scope se_scope.
Delimit Scope se_scope with se.
Notation "x <~ m ;; k" := (SE.bind m (fun x => k))
  (at level 100, m at next level, right associativity) : se_scope.
Notation "m ;;; k" := (SE.bind m (fun _ => k))
  (at level 100, right associativity) : se_scope.

(** ** Numbers *)

Definition QZ (z : Z) : Q := inject_Z z.

Definition Qlt_bool (x y : Q) : bool := negb (Qle_bool y x).

(** Lua's [math.min(x, y)]: [x] unless [y < x]. *)
Definition math_min (x y : Q) : Q := if Qlt_bool y x then y else x.

(** Lua's [math.max(x, y)] on integers. *)
Definition math_max (x y : Z) : Z := if x <? y then y else x.

(** Nearest integer, ties to the even neighbour: the rounding that
    [printf] applies to an exactly represented value. *)
Definition round_half_even (q : Q) : Z :=
  let f := Qfloor q in
  let r := (q - QZ f)%Q in
  if Qlt_bool r (1 # 2) then f
  else if Qlt_bool (1 # 2) r then f + 1
  else if Z.even f then f else f + 1.

(** The number denoted by [string.format("%.3f", q)], which is what
    Python's [float(_)] reads back. *)
Definition format_3f (q : Q) : Q := round_half_even (q * 1000) # 1000.

(** Python's [int(x)] on a float, and Lua's number-to-integer conversion of
    a script reply: truncation towards zero. *)
Definition trunc (q : Q) : Z := Z.quot (Qnum q) (Z.pos (Qden q)).

(** ** The Redis keyspace and the commands the scripts use *)

Module Redis.

(** The hash written by the token-bucket script: fields [tokens] and
    [last_refill], always written together. *)
Record bucket : Type := Bucket { tokens : Q; last_refill : Q }.

Inductive value : Type :=
  | VHash (b : bucket)
  | VZSet (z : gmap string Z).     (* member |-> score *)

Record entry : Type := Entry { val : value; ttl : option Z }.

Abbreviation db := (gmap string entry).

Definition script (A : Type) : Type := SE.t db A.

Definition WRONGTYPE : exn :=
  ResponseError
    "WRONGTYPE Operation against a key holding the wrong kind of value".

(** [HMGET key tokens last_refill]; a missing key yields nils. *)
Definition HMGET (key : string) : script (option bucket) := fun d =>
  match d !! key with
  | None => (inr None, d)
  | Some (Entry (VHash b) _) => (inr (Some b), d)
  | Some (Entry (VZSet _) _) => (inl WRONGTYPE, d)
  end.

(** [HSET key tokens t last_refill r]; keeps the time-to-live of an
    existing key. *)
Definition HSET (key : string) (b : bucket) : script unit := fun d =>
  match d !! key with
  | None => (inr tt, <[key := Entry (VHash b) None]> d)
  | Some (Entry (VHash _) l) => (inr tt, <[key := Entry (VHash b) l]> d)
  | Some (Entry (VZSet _) _) => (inl WRONGTYPE, d)
  end.

(** [EXPIRE key seconds]: 0 on a missing key; a non-positive timeout
    deletes the key. *)
Definition EXPIRE (key : string) (seconds : Z) : script Z := fun d =>
  match d !! key with
  | None => (inr 0, d)
  | Some (Entry v _) =>
      if seconds <=? 0 then (inr 1, delete key d)
      else (inr 1, <[key := Entry v (Some seconds)]> d)
  end.

(** Members that survive [ZREMRANGEBYSCORE key -inf max]. *)
Definition zkeep (max : Z) (z : gmap string Z) : gmap string Z :=
  filter (fun ms => max < ms.2) z.

(** [ZREMRANGEBYSCORE key -inf max]: removes the members with score at
    most [max] and returns how many; a sorted set left empty is removed
    from the keyspace. *)
Definition ZREMRANGEBYSCORE (key : string) (max : Z) : script Z := fun d =>
  match d !! key with
  | None => (inr 0, d)
  | Some (Entry (VHash _) _) => (inl WRONGTYPE, d)
  | Some (Entry (VZSet z) l) =>
      let z' := zkeep max z in
      let removed := Z.of_nat (size z) - Z.of_nat (size z') in
      if decide (z' = ∅) then (inr removed, delete key d)
      else (inr removed, <[key := Entry (VZSet z') l]> d)
  end.

(** [ZCARD key] *)
Definition ZCARD (key : string) : script Z := fun d =>
  match d !! key with
  | None => (inr 0, d)
  | Some (Entry (VHash _) _) => (inl WRONGTYPE, d)
  | Some (Entry (VZSet z) _) => (inr (Z.of_nat (size z)), d)
  end.

(** [ZADD key score member]: adds the member or updates its score. *)
Definition ZADD (key : string) (score : Z) (member : string) : script Z :=
  fun d =>
    match d !! key with
    | None => (inr 1, <[key := Entry (VZSet {[member := score]}) None]> d)
    | Some (Entry (VHash _) _) => (inl WRONGTYPE, d)
    | Some (Entry (VZSet z) l) =>
        (inr (if z !! member is Some _ then 0 else 1),
         <[key := Entry (VZSet (<[member := score]> z)) l]> d)
    end.

(** The least score of a sorted set. *)
Definition zmin_score (z : gmap string Z) : option Z :=
  map_fold (fun _ s acc => Some (match acc with
                                 | None => s
                                 | Some a => Z.min s a
                                 end)) None z.

(** [ZRANGE key 0 0 WITHSCORES]: the element of rank 0.  The scripts read
    only its score ([oldest[2]]), so the reply is the least score, or
    nothing for an empty or missing set ([#oldest < 2]). *)
Definition ZRANGE_0_0_WITHSCORES (key : string) : script (option Z) :=
  fun d =>
    match d !! key with
    | None => (inr None, d)
    | Some (Entry (VHash _) _) => (inl WRONGTYPE, d)
    | Some (Entry (VZSet z) _) => (inr (zmin_score z), d)
    end.

(** [DEL key]: the number of keys removed. *)
Definition DEL (key : string) : script Z := fun d =>
  match d !! key with
  | None => (inr 0, d)
  | Some _ => (inr 1, delete key d)
  end.

End Redis.

(** ** The client wrapper ([app/redis_client.py]) *)

Module RedisClient.

(** State of the singleton: whether [_client] is set, and the keyspace of
    the server it talks to. *)
Record world : Type := World { connected : bool; store : Redis.db }.

(** What the network does to one round trip: the reply arrives, the request
    is lost (the server never runs it), or the server runs it and the reply
    is lost. *)
Inductive net : Type :=
  | Deliver
  | FailBefore (e : exn)
  | FailAfter (e : exn).

Definition coroutine (A : Type) : Type := SE.t world A.

(** The [client] property. *)
Definition client : coroutine unit := fun w =>
  if connected w then (inr tt, w)
  else (inl (RuntimeError
               "Redis client not initialized. Call connect() first."), w).

(** One command or script sent through redis-py: an error reply of the
    server is raised as an exception. *)
Definition round_trip {A} (n : net) (cmd : Redis.script A) : coroutine A :=
  fun w =>
    match n with
    | FailBefore e => (inl e, w)
    | FailAfter e => (inl e, World (connected w) (snd (cmd (store w))))
    | Deliver =>
        let '(r, d) := cmd (store w) in (r, World (connected w) d)
    end.

(** [execute_lua_script]: [EVAL] of the script; the handler logs and
    re-raises. *)
Definition execute_lua_script {A} (n : net) (script : Redis.script A)
  : coroutine A :=
  SE.try_except
    (client ;;; round_trip n script)%se
    [(is_RedisError, fun e => SE.raise e)].

(** [delete_key]: [DEL key], true when a key was removed. *)
Definition delete_key (n : net) (key : string) : coroutine bool :=
  SE.try_except
    (client ;;;
     result <~ round_trip n (Redis.DEL key) ;;
     SE.ret (0 <? result))%se
    [(is_RedisError, fun e => SE.raise e)].

End RedisClient.

(** ** Token bucket ([app/algorithms/token_bucket.py]) *)

Module TokenBucket.
Import Redis RedisClient.

Record TokenBucketResult : Type := Result {
  allowed : bool;
  remaining : Z;
  reset_in_seconds : Q;
  retry_after : option Q
}.

(** The status dictionary of [get_status]. *)
Record Status : Type := MkStatus {
  requests_used : Z;
  status_remaining : Z;
  status_reset_in_seconds : Q
}.

(** [TOKEN_BUCKET_LUA_SCRIPT]; the reply is
    [{allowed, remaining, "%.3f" reset_in_seconds, "%.3f" retry_after}]. *)
Definition TOKEN_BUCKET_LUA_SCRIPT
    (key : string) (max_tokens refill_rate now window_seconds : Q)
  : script (Z * Z * Q * Q) :=
  (bucket <~ HMGET key ;;
   let '(tokens, last_refill) :=
     match bucket with
     | None => (max_tokens, now)
     | Some b => (Redis.tokens b, Redis.last_refill b)
     end in
   let time_passed := (now - last_refill)%Q in
   let tokens_to_add := (time_passed * refill_rate)%Q in
   let tokens := math_min max_tokens (tokens + tokens_to_add)%Q in
   let last_refill := now in
   let '(tokens, allowed) :=
     if Qle_bool 1 tokens then ((tokens - 1)%Q, 1) else (tokens, 0) in
   let remaining := Qfloor tokens in
   let tokens_needed := (max_tokens - tokens)%Q in
   let reset_in_seconds :=
     if Qlt_bool 0 tokens_needed && Qlt_bool 0 refill_rate
     then (tokens_needed / refill_rate)%Q else 0%Q in
   let retry_after :=
     if (allowed =? 0) && Qlt_bool 0 refill_rate
     then ((1 - tokens) / refill_rate)%Q else 0%Q in
   let ttl := Qceiling (window_seconds * 2) in
   HSET key (Bucket tokens last_refill) ;;;
   EXPIRE key ttl ;;;
   SE.ret (allowed, remaining,
           format_3f reset_in_seconds, format_3f retry_after))%se.

(** [TOKEN_BUCKET_STATUS_LUA_SCRIPT]; the reply is
    [{used, remaining, "%.3f" reset_in_seconds}]. *)
Definition TOKEN_BUCKET_STATUS_LUA_SCRIPT
    (key : string) (max_tokens refill_rate now : Q)
  : script (Z * Z * Q) :=
  (bucket <~ HMGET key ;;
   match bucket with
   | None => SE.ret (0, trunc max_tokens, 0%Q)
   | Some b =>
       let time_passed := (now - Redis.last_refill b)%Q in
       let tokens_to_add := (time_passed * refill_rate)%Q in
       let tokens := math_min max_tokens (Redis.tokens b + tokens_to_add)%Q in
       let used := Qfloor (max_tokens - tokens) in
       let remaining := Qfloor tokens in
       let tokens_needed := (max_tokens - tokens)%Q in
       let reset_in_seconds :=
         if Qlt_bool 0 tokens_needed && Qlt_bool 0 refill_rate
         then (tokens_needed / refill_rate)%Q else 0%Q in
       SE.ret (used, remaining, format_3f reset_in_seconds)
   end)%se.

Definition KEY_PREFIX : string := "token_bucket".

Definition _get_key (identifier : string) : string :=
  KEY_PREFIX +:+ ":" +:+ identifier.

(** [limit / window_seconds]: Python's true division. *)
Definition true_div {S} (a b : Z) : SE.t S Q :=
  if b =? 0 then SE.raise ZeroDivisionError else SE.ret (QZ a / QZ b)%Q.

(** [TokenBucketLimiter.check]; [current_time] is the reading of
    [time.time()]. *)
Definition check (identifier : string) (limit window_seconds : Z)
    (current_time : Q) (n : net) : coroutine TokenBucketResult :=
  let key := _get_key identifier in
  (refill_rate <~ true_div limit window_seconds ;;
   SE.try_except
     (result <~ execute_lua_script n
        (TOKEN_BUCKET_LUA_SCRIPT key (QZ limit) refill_rate current_time
           (QZ window_seconds)) ;;
      let '(r0, r1, r2, r3) := result in
      let allowed := negb (r0 =? 0) in
      let remaining := r1 in
      let reset_in_seconds := r2 in
      let retry_after := if negb allowed then Some r3 else None in
      SE.ret (Result allowed remaining reset_in_seconds retry_after))
     [(SE.is_Exception, fun e => SE.raise e)])%se.

(** [TokenBucketLimiter.get_status] *)
Definition get_status (identifier : string) (limit window_seconds : Z)
    (current_time : Q) (n : net) : coroutine Status :=
  let key := _get_key identifier in
  (refill_rate <~ true_div limit window_seconds ;;
   SE.try_except
     (result <~ execute_lua_script n
        (TOKEN_BUCKET_STATUS_LUA_SCRIPT key (QZ limit) refill_rate
           current_time) ;;
      let '(r0, r1, r2) := result in
      SE.ret (MkStatus r0 r1 r2))
     [(SE.is_Exception, fun e => SE.raise e)])%se.

(** [TokenBucketLimiter.reset] *)
Definition reset (identifier : string) (n : net) : coroutine bool :=
  let key := _get_key identifier in
  SE.try_except
    (deleted <~ delete_key n key ;; SE.ret deleted)%se
    [(SE.is_Exception, fun e => SE.raise e)].

End TokenBucket.

(** ** Sliding-window log ([app/algorithms/sliding_window.py]) *)

Module SlidingWindow.
Import Redis RedisClient.

Record SlidingWindowResult : Type := Result {
  allowed : bool;
  remaining : Z;
  reset_in_seconds : Q;
  retry_after : option Q
}.

Record Status : Type := MkStatus {
  requests_used : Z;
  status_remaining : Z;
  status_reset_in_seconds : Q
}.

(** Seconds until a request stamped [oldest_time] leaves the window,
    floored at 0:
    [((oldest_time + window_seconds * 1000) - now) / 1000]. *)
Definition until_expiry (oldest_time window_seconds now : Z) : Q :=
  let r := (QZ ((oldest_time + window_seconds * 1000) - now) / 1000)%Q in
  if Qlt_bool r 0 then 0%Q else r.

(** The member stored for one admitted request:
    [tostring(now) .. ':' .. tostring(math.random(1000000))]. *)
Definition member_name (now rnd : Z) : string :=
  pretty now +:+ ":" +:+ pretty rnd.

(** [SLIDING_WINDOW_LUA_SCRIPT]; [rnd] is the value drawn by
    [math.random(1000000)]. *)
Definition SLIDING_WINDOW_LUA_SCRIPT
    (key : string) (limit window_seconds now : Z) (rnd : Z)
  : script (Z * Z * Q * Q) :=
  (let window_start := now - window_seconds * 1000 in
   ZREMRANGEBYSCORE key window_start ;;;
   current_count <~ ZCARD key ;;
   decision <~
     (if current_count <? limit then
        let member := member_name now rnd in
        ZADD key now member ;;;
        SE.ret (1, limit - current_count - 1, 0%Q)
      else
        oldest <~ ZRANGE_0_0_WITHSCORES key ;;
        let retry_after :=
          match oldest with
          | Some oldest_time => until_expiry oldest_time window_seconds now
          | None => 0%Q
          end in
        SE.ret (0, 0, retry_after)) ;;
   let '(allowed, remaining, retry_after) := decision in
   EXPIRE key (window_seconds * 2) ;;;   (* math.ceil of an integer *)
   oldest_in_window <~ ZRANGE_0_0_WITHSCORES key ;;
   let reset_in_seconds :=
     match oldest_in_window with
     | Some oldest_time => until_expiry oldest_time window_seconds now
     | None => QZ window_seconds
     end in
   SE.ret (allowed, remaining,
           format_3f reset_in_seconds, format_3f retry_after))%se.

(** [SLIDING_WINDOW_STATUS_LUA_SCRIPT] *)
Definition SLIDING_WINDOW_STATUS_LUA_SCRIPT
    (key : string) (limit window_seconds now : Z)
  : script (Z * Z * Q) :=
  (let window_start := now - window_seconds * 1000 in
   ZREMRANGEBYSCORE key window_start ;;;
   current_count <~ ZCARD key ;;
   let remaining := math_max 0 (limit - current_count) in
   oldest <~ ZRANGE_0_0_WITHSCORES key ;;
   let reset_in_seconds :=
     match oldest with
     | Some oldest_time => until_expiry oldest_time window_seconds now
     | None => QZ window_seconds
     end in
   SE.ret (current_count, remaining, format_3f reset_in_seconds))%se.

Definition KEY_PREFIX : string := "sliding_window".

Definition _get_key (identifier : string) : string :=
  KEY_PREFIX +:+ ":" +:+ identifier.

(** [int(time.time() * 1000)] *)
Definition current_time_ms (clock : Q) : Z := trunc (clock * 1000).

(** [SlidingWindowLimiter.check]; [clock] is the reading of [time.time()]
    and [rnd] the nonce the script draws. *)
Definition check (identifier : string) (limit window_seconds : Z)
    (clock : Q) (rnd : Z) (n : net) : coroutine SlidingWindowResult :=
  let key := _get_key identifier in
  let current_time_ms := current_time_ms clock in
  SE.try_except
    (result <~ execute_lua_script n
       (SLIDING_WINDOW_LUA_SCRIPT key limit window_seconds current_time_ms
          rnd) ;;
     let '(r0, r1, r2, r3) := result in
     let allowed := negb (r0 =? 0) in
     let remaining := r1 in
     let reset_in_seconds := r2 in
     let retry_after := if negb allowed then Some r3 else None in
     SE.ret (Result allowed remaining reset_in_seconds retry_after))%se
    [(SE.is_Exception, fun e => SE.raise e)].

(** [SlidingWindowLimiter.get_status] *)
Definition get_status (identifier : string) (limit window_seconds : Z)
    (clock : Q) (n : net) : coroutine Status :=
  let key := _get_key identifier in
  let current_time_ms := current_time_ms clock in
  SE.try_except
    (result <~ execute_lua_script n
       (SLIDING_WINDOW_STATUS_LUA_SCRIPT key limit window_seconds
          current_time_ms) ;;
     let '(r0, r1, r2) := result in
     SE.ret (MkStatus r0 r1 r2))%se
    [(SE.is_Exception, fun e => SE.raise e)].

(** [SlidingWindowLimiter.reset] *)
Definition reset (identifier : string) (n : net) : coroutine bool :=
  let key := _get_key identifier in
  SE.try_except
    (deleted <~ delete_key n key ;; SE.ret deleted)%se
    [(SE.is_Exception, fun e => SE.raise e)].

End SlidingWindow.

(** ** The reset endpoint ([app/main.py]) *)

Module Main.
Import RedisClient.

(** [app/models.py] *)
Inductive Algorithm : Type := TOKEN_BUCKET | SLIDING_WINDOW.

Record RateLimitResetResponse : Type := { message : string }.

Definition is_token_bucket (a : option Algorithm) : bool :=
  match a with None | Some TOKEN_BUCKET => true | _ => false end.

Definition is_sliding_window (a : option Algorithm) : bool :=
  match a with None | Some SLIDING_WINDOW => true | _ => false end.

(** [reset_rate_limit]; [algorithm = None] resets both limiters.  [n1] and
    [n2] are the outcomes of the round trips of the token-bucket and the
    sliding-window reset. *)
Definition reset_rate_limit (identifier : string)
    (algorithm : option Algorithm) (n1 n2 : net)
  : coroutine RateLimitResetResponse :=
  SE.try_except
    (let reset_count := 0 in
     reset_count <~
       (if is_token_bucket algorithm then
          deleted <~ TokenBucket.reset identifier n1 ;;
          SE.ret (if deleted : bool then reset_count + 1 else reset_count)
        else SE.ret reset_count) ;;
     reset_count <~
       (if is_sliding_window algorithm then
          deleted <~ SlidingWindow.reset identifier n2 ;;
          SE.ret (if deleted : bool then reset_count + 1 else reset_count)
        else SE.ret reset_count) ;;
     if (reset_count =? 0) && (if algorithm is Some _ then true else false)
     then SE.raise
            (HTTPException 404
               ("No rate limit data found for " +:+ identifier))
     else SE.ret {| message := "Rate limit reset for " +:+ identifier |})%se
    [(is_HTTPException, fun e => SE.raise e);
     (is_RedisError, fun e => SE.raise e);
     (SE.is_Exception,
      fun _ => SE.raise (HTTPException 500 "Reset failed"))].

End Main.

(** ** Call sequences and the quantities the results are stated with *)

Module TokenBucketRun.
Import Redis RedisClient TokenBucket.

(** The bucket the script computes with: the stored one, or a full bucket
    stamped [now] when the key is missing. *)
Definition seed (max_tokens now : Q) (ob : option bucket) : bucket :=
  match ob with None => Bucket max_tokens now | Some b => b end.

(** Tokens after the refill step, before consumption. *)
Definition refilled (max_tokens refill_rate now : Q) (b : bucket) : Q :=
  math_min max_tokens (tokens b + (now - last_refill b) * refill_rate)%Q.

(** Tokens after the consumption step. *)
Definition consumed (t : Q) : Q := if Qle_bool 1 t then (t - 1)%Q else t.

Definition reset_time (max_tokens refill_rate t : Q) : Q :=
  if Qlt_bool 0 (max_tokens - t) && Qlt_bool 0 refill_rate
  then ((max_tokens - t) / refill_rate)%Q else 0%Q.

Definition retry_time (refill_rate t : Q) : Q :=
  if Qlt_bool 0 refill_rate then ((1 - t) / refill_rate)%Q else 0%Q.

(** The result of a delivered check whose refill step yields [t]. *)
Definition tb_result (C rate : Q) (t : Q) : TokenBucketResult :=
  Result (Qle_bool 1 t) (Qfloor (consumed t))
    (format_3f (reset_time C rate (consumed t)))
    (if Qle_bool 1 t then None else Some (format_3f (retry_time rate t))).

(** Calls of one client on one identifier. *)
Inductive call : Type :=
  | CallCheck (limit window_seconds : Z) (current_time : Q) (n : net)
  | CallStatus (limit window_seconds : Z) (current_time : Q) (n : net).

Definition is_check (c : call) : bool :=
  match c with CallCheck _ _ _ _ => true | CallStatus _ _ _ _ => false end.

(** The outcomes of the [check] calls of a sequence, in call order. *)
Fixpoint results (identifier : string) (cs : list call) (w : world)
  : list (exn + TokenBucketResult) :=
  match cs with
  | [] => []
  | CallCheck l s t n :: cs' =>
      let '(r, w') := check identifier l s t n w in
      r :: results identifier cs' w'
  | CallStatus l s t n :: cs' =>
      results identifier cs' (snd (get_status identifier l s t n w))
  end.

(** A stored bucket with no tokens left, last refilled at time 0. *)
Definition drained_world : world :=
  World true
    {[ TokenBucket._get_key "user_123" :=
         Entry (VHash (Bucket 0 0)) (Some 120) ]}.

End TokenBucketRun.

Module SlidingWindowRun.
Import Redis RedisClient SlidingWindow.

(** The sorted set stored under a key, empty when the key is missing. *)
Definition zset_at (d : db) (key : string) : gmap string Z :=
  match d !! key with
  | Some (Entry (VZSet z) _) => z
  | _ => ∅
  end.

(** Number of stored entries under a key. *)
Definition zcard (d : db) (key : string) : Z :=
  Z.of_nat (size (zset_at d key)).

(** Events on the sliding-window keys of a deployment: calls of any client
    on any identifier, and the server dropping a key whose time-to-live ran
    out. *)
Inductive event : Type :=
  | EvCheck (identifier : string) (window_seconds : Z) (clock : Q)
      (rnd : Z) (n : net)
  | EvStatus (identifier : string) (limit window_seconds : Z) (clock : Q)
      (n : net)
  | EvReset (identifier : string) (n : net)
  | EvExpire (key : string).

(** One event; every check uses the limit [limit]. *)
Definition step (limit : Z) (ev : event) (w : world) : world :=
  match ev with
  | EvCheck i s t r n => snd (check i limit s t r n w)
  | EvStatus i l s t n => snd (get_status i l s t n w)
  | EvReset i n => snd (reset i n w)
  | EvExpire key => World (connected w) (delete key (store w))
  end.

Definition run (limit : Z) (evs : list event) (w : world) : world :=
  fold_left (fun w ev => step limit ev w) evs w.

(** Calls of one client on one identifier. *)
Inductive call : Type :=
  | CallCheck (limit window_seconds : Z) (clock : Q) (rnd : Z) (n : net)
  | CallStatus (limit window_seconds : Z) (clock : Q) (n : net).

Definition is_check (c : call) : bool :=
  match c with CallCheck _ _ _ _ _ => true | CallStatus _ _ _ _ => false end.

(** The outcomes of the [check] calls of a sequence, in call order. *)
Fixpoint results (identifier : string) (cs : list call) (w : world)
  : list (exn + SlidingWindowResult) :=
  match cs with
  | [] => []
  | CallCheck l s t r n :: cs' =>
      let '(res, w') := check identifier l s t r n w in
      res :: results identifier cs' w'
  | CallStatus l s t n :: cs' =>
      results identifier cs' (snd (get_status identifier l s t n w))
  end.

(** The score up to which a call at [clock] with window [window_seconds]
    prunes: [window_start] of the scripts. *)
Definition window_start (window_seconds : Z) (clock : Q) : Z :=
  current_time_ms clock - window_seconds * 1000.

Definition call_window_start (c : call) : Z :=
  match c with
  | CallCheck _ s t _ _ => window_start s t
  | CallStatus _ s t _ => window_start s t
  end.

(** No status call of the sequence prunes beyond what a later check of the
    sequence prunes itself. *)
Fixpoint status_within_checks (cs : list call) : Prop :=
  match cs with
  | [] => True
  | c :: cs' =>
      (is_check c = false ->
       Forall (fun c' => is_check c' = true ->
                         call_window_start c <= call_window_start c') cs')
      /\ status_within_checks cs'
  end.

(** Every sorted set of the keyspace holds at most [L] entries. *)
Definition bounded (L : Z) (d : db) : Prop :=
  forall key, zcard d key <= L.

(** The world after the server ran [ZREMRANGEBYSCORE key -inf c]. *)
Definition pruneW (key : string) (c : Z) (w : world) : world :=
  World (connected w) (snd (ZREMRANGEBYSCORE key c (store w))).

(** How [check] decodes the reply of its script. *)
Definition sw_parse (x : exn + Z * Z * Q * Q)
  : exn + SlidingWindowResult :=
  match x with
  | inl e => inl e
  | inr (r0, r1, r2, r3) =>
      inr (Result (negb (r0 =? 0)) r1 r2
             (if negb (negb (r0 =? 0)) then Some r3 else None))
  end.

End SlidingWindowRun.

(** ** Connection lifecycle and health ([app/redis_client.py], [app/main.py]) *)

Module Lifecycle.
Import Redis RedisClient.

(** [PING]: touches no key. *)
Definition PING : script bool := SE.ret true.

(** [disconnect]: closes the client and the pool; the server keeps its
    keyspace. *)
Definition disconnect : coroutine unit := fun w =>
  (inr tt, World false (store w)).

(** [is_healthy]: [False] without a client, the outcome of [PING]
    otherwise; a [RedisError] is answered with [False]. *)
Definition is_healthy (n : net) : coroutine bool :=
  SE.try_except
    (fun w =>
       if negb (connected w) then (inr false, w)
       else (round_trip n PING ;;; SE.ret true)%se w)
    [(is_RedisError, fun _ => SE.ret false)].

Record HealthResponse : Type := {
  status : string;
  redis_connected : bool;
  version : string
}.

(** [health_check]; [app_version] is [settings.app_version]. *)
Definition health_check (app_version : string) (n : net)
  : coroutine HealthResponse :=
  (redis_healthy <~ is_healthy n ;;
   let status := if redis_healthy : bool then "healthy" else "unhealthy" in
   SE.ret {| status := status;
             redis_connected := redis_healthy;
             version := app_version |})%se.

End Lifecycle.

(** ** Exception handlers and the status of a reset request ([app/main.py]) *)

Module Http.
Import RedisClient Main.

(** An error response: status line and the JSON body
    [{"detail": _, "error_code": _}]. *)
Record JSONResponse : Type := {
  status_code : Z;
  detail : string;
  error_code : option string
}.

(** [redis_exception_handler] *)
Definition redis_exception_handler (exc : exn) : JSONResponse :=
  {| status_code := 503;
     detail := "Rate limiting service temporarily unavailable";
     error_code := Some "REDIS_ERROR" |}.

(** [general_exception_handler] *)
Definition general_exception_handler (exc : exn) : JSONResponse :=
  {| status_code := 500;
     detail := "Internal server error";
     error_code := Some "INTERNAL_ERROR" |}.

(** The handler the application runs for an exception that leaves an
    endpoint: the framework's own for [HTTPException] (its status and
    detail), else the handler registered for the nearest class. *)
Definition exception_response (exc : exn) : JSONResponse :=
  match exc with
  | HTTPException s d =>
      {| status_code := s; detail := d; error_code := None |}
  | _ =>
      if is_RedisError exc then redis_exception_handler exc
      else general_exception_handler exc
  end.

(** The keys a reset request addresses: both limiters' keys when no
    algorithm is selected. *)
Definition reset_targets (identifier : string)
    (algorithm : option Algorithm) : list string :=
  (if is_token_bucket algorithm
   then [TokenBucket._get_key identifier] else [])
  ++ (if is_sliding_window algorithm
      then [SlidingWindow._get_key identifier] else []).

(** What the client of [DELETE /rate-limit/reset/{identifier}] receives:
    200 with the confirmation, or an error response. *)
Definition reset_request (identifier : string)
    (algorithm : option Algorithm) (n1 n2 : net) (w : world)
  : (JSONResponse + RateLimitResetResponse) * world :=
  match reset_rate_limit identifier algorithm n1 n2 w with
  | (inr body, w') => (inr body, w')
  | (inl exc, w') => (inl (exception_response exc), w')
  end.

End Http.

(** ** Limiter operations by name *)

Module Ops.
Import RedisClient.

(** One limiter call with its arguments and readings. *)
Inductive op : Type :=
  | OpCheck (limit window_seconds : Z) (clock : Q) (rnd : Z)
  | OpStatus (limit window_seconds : Z) (clock : Q)
  | OpReset.

(** The world after a token-bucket call on [identifier]. *)
Definition after_tb (identifier : string) (o : op) (n : net) (w : world)
  : world :=
  match o with
  | OpCheck l s t _ => snd (TokenBucket.check identifier l s t n w)
  | OpStatus l s t => snd (TokenBucket.get_status identifier l s t n w)
  | OpReset => snd (TokenBucket.reset identifier n w)
  end.

(** The world after a sliding-window call on [identifier]. *)
Definition after_sw (identifier : string) (o : op) (n : net) (w : world)
  : world :=
  match o with
  | OpCheck l s t r => snd (SlidingWindow.check identifier l s t r n w)
  | OpStatus l s t => snd (SlidingWindow.get_status identifier l s t n w)
  | OpReset => snd (SlidingWindow.reset identifier n w)
  end.

End Ops.

(** ** Counting admissions over a call sequence *)

Module Admissions.
Import RedisClient TokenBucketRun.





End Admissions.

(** ** Example worlds *)

Module Examples.
Import RedisClient.

(** The world after one allowed sliding-window request of ["user_123"] at
    clock reading 0 (limit 1, window 60). *)
Definition one_request : world :=
  snd (SlidingWindow.check "user_123" 1 60 0 7 Deliver (World true ∅)).

End Examples.

(** * Results *)

Import Redis RedisClient SlidingWindowRun TokenBucketRun.

(** ** Comparison and rounding *)

Lemma Qlt_bool_true x y : Qlt_bool x y = true <-> (x < y)%Q.
Proof.
  unfold Qlt_bool. rewrite negb_true_iff. split.
  - intros H. apply Qnot_le_lt. intros Hle. apply Qle_bool_iff in Hle. congruence.
  - intros H. destruct (Qle_bool y x) eqn:E; [|reflexivity].
    apply Qle_bool_iff in E. exfalso. apply (Qlt_not_le _ _ H E).
Qed.

Lemma Qlt_bool_false x y : Qlt_bool x y = false <-> (y <= x)%Q.
Proof.
  unfold Qlt_bool. rewrite negb_false_iff. apply Qle_bool_iff.
Qed.

Lemma QZ_plus a b : QZ (a + b) = (QZ a + QZ b)%Q.
Proof. apply inject_Z_plus. Qed.

Lemma round_half_even_comp x y : (x == y)%Q -> round_half_even x = round_half_even y.
Proof.
  intros H. unfold round_half_even. rewrite (Qfloor_comp _ _ H).
  set (f := Qfloor y).
  assert (E1 : Qlt_bool (x - QZ f) (1 # 2) = Qlt_bool (y - QZ f) (1 # 2)).
  { unfold Qlt_bool. f_equal. apply Qleb_comp; [reflexivity|]. now rewrite H. }
  assert (E2 : Qlt_bool (1 # 2) (x - QZ f) = Qlt_bool (1 # 2) (y - QZ f)).
  { unfold Qlt_bool. f_equal. apply Qleb_comp; [|reflexivity]. now rewrite H. }
  now rewrite E1, E2.
Qed.

Lemma round_half_even_near q :
  (QZ (round_half_even q) - (1 # 2) <= q <= QZ (round_half_even q) + (1 # 2))%Q.
Proof.
  unfold round_half_even.
  pose proof (Qfloor_le q) as Hlo. pose proof (Qlt_floor q) as Hhi.
  fold (QZ (Qfloor q)) in Hlo. fold (QZ (Qfloor q + 1)) in Hhi.
  rewrite QZ_plus in Hhi. change (QZ 1) with 1%Q in Hhi.
  set (f := Qfloor q) in *.
  destruct (Qlt_bool (q - QZ f) (1 # 2)) eqn:E1.
  { apply Qlt_bool_true in E1. lra. }
  apply Qlt_bool_false in E1.
  destruct (Qlt_bool (1 # 2) (q - QZ f)) eqn:E2.
  { apply Qlt_bool_true in E2. rewrite QZ_plus. change (QZ 1) with 1%Q. lra. }
  apply Qlt_bool_false in E2.
  destruct (Z.even f); [lra|]. rewrite QZ_plus. change (QZ 1) with 1%Q. lra.
Qed.

Lemma QZ_le a b : a <= b -> (QZ a <= QZ b)%Q.
Proof. intros H. unfold QZ. now rewrite <- Zle_Qle. Qed.

Lemma round_half_even_mono x y :
  (x <= y)%Q -> round_half_even x <= round_half_even y.
Proof.
  intros Hxy.
  destruct (Z_le_gt_dec (round_half_even x) (round_half_even y)) as [|Hgt]; [assumption|].
  exfalso.
  pose proof (round_half_even_near x) as [Hx _].
  pose proof (round_half_even_near y) as [_ Hy].
  assert (Hk : (QZ (round_half_even y) + 1 <= QZ (round_half_even x))%Q).
  { change 1%Q with (QZ 1). rewrite <- QZ_plus. apply QZ_le. lia. }
  assert (Heq : (x == y)%Q) by lra.
  apply round_half_even_comp in Heq. lia.
Qed.

Lemma format_3f_mono x y : (x <= y)%Q -> (format_3f x <= format_3f y)%Q.
Proof.
  intros H. unfold format_3f, Qle. simpl.
  apply Z.mul_le_mono_nonneg_r; [lia|].
  apply round_half_even_mono. lra.
Qed.



(** ** Token bucket: the script in closed form *)

Ltac se_unfold :=
  unfold SE.try_except, SE.bind, SE.ret, SE.raise, SE.handle, SE.is_Exception.

Lemma HMGET_inr key d ob :
  fst (HMGET key d) = inr ob ->
  HMGET key d = (inr ob, d) /\
  (ob = None /\ d !! key = None \/
   exists b l, ob = Some b /\ d !! key = Some (Entry (VHash b) l)).
Proof.
  unfold HMGET. destruct (d !! key) as [[[b|z] l]|] eqn:E; simpl; intros H; inversion H; subst.
  - split; [reflexivity|]. right. eauto.
  - split; [reflexivity|]. left. eauto.
Qed.

Lemma tb_script_run key C rate now W d ob :
  fst (HMGET key d) = inr ob -> 0 < Qceiling (W * 2) ->
  let t := refilled C rate now (seed C now ob) in
  TokenBucket.TOKEN_BUCKET_LUA_SCRIPT key C rate now W d =
    (inr (if Qle_bool 1 t then 1 else 0, Qfloor (consumed t),
          format_3f (reset_time C rate (consumed t)),
          format_3f (if Qle_bool 1 t then 0%Q else retry_time rate t)),
     <[key := Entry (VHash (Bucket (consumed t) now))
                    (Some (Qceiling (W * 2)))]> d).
Proof.
  intros Hget Httl t. apply HMGET_inr in Hget as [Hget Hcase].
  unfold TokenBucket.TOKEN_BUCKET_LUA_SCRIPT. unfold SE.bind at 1. rewrite Hget.
  assert (Hseed : (let '(tokens, last_refill) :=
              match ob with None => (C, now) | Some b => (tokens b, last_refill b) end in
              math_min C (tokens + (now - last_refill) * rate)%Q) = t).
  { unfold t, refilled, seed. destruct ob; reflexivity. }
  destruct ob as [b|]; simpl in Hseed; simpl; rewrite Hseed; clear Hseed.
  all: unfold consumed, reset_time, retry_time.
  all: destruct (Qle_bool 1 t) eqn:Eok; simpl.
  all: se_unfold; unfold HSET, EXPIRE.
  all: destruct Hcase as [[? Hk]|(b' & l & ? & Hk)]; try discriminate; rewrite Hk.
  all: rewrite lookup_insert_eq.
  all: destruct (Qceiling (W * 2) <=? 0) eqn:El; [apply Z.leb_le in El; lia|].
  all: rewrite insert_insert_eq; try reflexivity.
Qed.

Lemma Qceiling_twice W : Qceiling (QZ W * 2) = 2 * W.
Proof.
  assert (H : (QZ W * 2 == QZ (2 * W))%Q).
  { unfold QZ. rewrite inject_Z_mult. change (inject_Z 2) with 2%Q. ring. }
  rewrite (Qceiling_comp _ _ H). apply Qceiling_Z.
Qed.

Lemma tb_check_run identifier limit window now w ob :
  connected w = true -> 1 <= window ->
  fst (HMGET (TokenBucket._get_key identifier) (store w)) = inr ob ->
  let rate := (QZ limit / QZ window)%Q in
  let t := refilled (QZ limit) rate now (seed (QZ limit) now ob) in
  TokenBucket.check identifier limit window now Deliver w =
    (inr (tb_result (QZ limit) rate t),
     World true (<[TokenBucket._get_key identifier :=
                    Entry (VHash (Bucket (consumed t) now))
                          (Some (2 * window))]> (store w))).
Proof.
  intros Hc Hw Hget rate t.
  unfold TokenBucket.check, TokenBucket.true_div.
  destruct (window =? 0) eqn:E0; [apply Z.eqb_eq in E0; lia|].
  unfold execute_lua_script, client, round_trip. se_unfold. rewrite Hc.
  rewrite (tb_script_run _ _ _ _ _ _ _ Hget) by (rewrite Qceiling_twice; lia).
  rewrite Qceiling_twice. fold rate. fold t. unfold tb_result.
  destruct (Qle_bool 1 t); simpl; rewrite Hc; reflexivity.
Qed.

Lemma math_min_spec x y :
  (y < x)%Q /\ math_min x y = y \/ (x <= y)%Q /\ math_min x y = x.
Proof.
  unfold math_min. destruct (Qlt_bool y x) eqn:E.
  - left. apply Qlt_bool_true in E. auto.
  - right. apply Qlt_bool_false in E. auto.
Qed.

Lemma QZ_pos a : 0 < a -> (0 < QZ a)%Q.
Proof. intros H. unfold QZ. change 0%Q with (inject_Z 0). now rewrite <- Zlt_Qlt. Qed.

Lemma rate_pos C W : 1 <= C -> 1 <= W -> (0 < QZ C / QZ W)%Q.
Proof.
  intros HC HW. apply Qlt_shift_div_l; [apply QZ_pos; lia|].
  rewrite Qmult_0_l. apply QZ_pos. lia.
Qed.

Lemma Qfloor_QZ_minus_1 C (t : Q) : (t == QZ C)%Q -> Qfloor (t - 1) = C - 1.
Proof.
  intros H. assert (E : (t - 1 == QZ (C - 1))%Q).
  { rewrite H. unfold QZ, Z.sub. rewrite inject_Z_plus. reflexivity. }
  rewrite (Qfloor_comp _ _ E). apply Qfloor_Z.
Qed.

Lemma consumed_spec t :
  Qle_bool 1 t = true /\ (1 <= t)%Q /\ consumed t = (t - 1)%Q \/
  Qle_bool 1 t = false /\ (t < 1)%Q /\ consumed t = t.
Proof.
  unfold consumed. destruct (Qle_bool 1 t) eqn:E.
  - left. apply Qle_bool_iff in E. auto.
  - right. split; [reflexivity|]. split; [|reflexivity].
    apply Qnot_le_lt. intros H. apply Qle_bool_iff in H. congruence.
Qed.

Lemma refilled_bounds C rate now b :
  (0 <= C)%Q -> (0 <= rate)%Q -> (0 <= tokens b)%Q -> (last_refill b <= now)%Q ->
  (0 <= refilled C rate now b <= C)%Q.
Proof.
  intros HC Hr Ht Hl. unfold refilled.
  assert (H0 : (0 <= (now - last_refill b) * rate)%Q).
  { apply Qmult_le_0_compat; [lra|assumption]. }
  destruct (math_min_spec C (tokens b + (now - last_refill b) * rate)%Q)
    as [[H ->]|[H ->]]; lra.
Qed.

Lemma refilled_fresh C rate now : refilled C rate now (Bucket C now) = C.
Proof.
  unfold refilled. simpl.
  destruct (math_min_spec C (C + (now - now) * rate)%Q) as [[H E]|[H E]];
    [|assumption].
  exfalso. assert ((now - now) * rate == 0)%Q by ring. lra.
Qed.

Lemma QZ_nonneg a : 0 <= a -> (0 <= QZ a)%Q.
Proof. intros H. change 0%Q with (QZ 0). now apply QZ_le. Qed.


(** ** Sliding window: size and frame of the scripts *)

Lemma zkeep_size c (z : gmap string Z) : (size (zkeep c z) <= size z)%nat.
Proof. unfold zkeep. apply map_size_filter. Qed.

Ltac sw_step :=
  match goal with
  | |- context [decide (?a = ?b)] => destruct (decide (a = b))
  | |- context [?a <? ?b] => destruct (Z.ltb_spec a b)
  | |- context [?a <=? ?b] => destruct (Z.leb_spec a b)
  | H : ?d !! ?k = _ |- context [?d !! ?k] => rewrite H
  | |- context [<[?k := _]> _ !! ?k] => rewrite lookup_insert_eq
  | |- context [delete ?k _ !! ?k] => rewrite lookup_delete_eq
  end; simpl.

Lemma sw_script_size key L W now rnd d :
  zcard d key <= L ->
  zcard (snd (SlidingWindow.SLIDING_WINDOW_LUA_SCRIPT key L W now rnd d)) key <= L.
Proof.
  unfold zcard, zset_at, SlidingWindow.SLIDING_WINDOW_LUA_SCRIPT.
  intros H. se_unfold.
  unfold ZREMRANGEBYSCORE, ZCARD, ZADD, EXPIRE, ZRANGE_0_0_WITHSCORES.
  destruct (d !! key) as [[[b|z] l]|] eqn:E; simpl.
  - rewrite E. simpl. lia.
  - pose proof (zkeep_size (now - W * 1000) z) as Hs.
    repeat sw_step; rewrite ?map_size_empty, ?map_size_singleton; try lia.
    all: try (rewrite E; simpl; lia).
    rewrite map_size_insert.
    destruct (zkeep _ z !! _); unfold id; lia.
  - repeat sw_step; rewrite ?map_size_empty, ?map_size_singleton; try lia.
    all: try (rewrite E; simpl; lia).
Qed.

Lemma sw_script_frame key key' L W now rnd d :
  key' <> key ->
  snd (SlidingWindow.SLIDING_WINDOW_LUA_SCRIPT key L W now rnd d) !! key'
  = d !! key'.
Proof.
  intros Hne. assert (Hne' : key <> key') by congruence.
  unfold SlidingWindow.SLIDING_WINDOW_LUA_SCRIPT. se_unfold.
  unfold ZREMRANGEBYSCORE, ZCARD, ZADD, EXPIRE, ZRANGE_0_0_WITHSCORES.
  destruct (d !! key) as [[[b|z] l]|] eqn:E; simpl.
  - reflexivity.
  - repeat sw_step;
      repeat first [rewrite lookup_insert_ne by assumption
                   |rewrite lookup_delete_ne by assumption];
      reflexivity.
  - repeat sw_step;
      repeat first [rewrite lookup_insert_ne by assumption
                   |rewrite lookup_delete_ne by assumption];
      reflexivity.
Qed.

Lemma sw_status_state key L W now d :
  snd (SlidingWindow.SLIDING_WINDOW_STATUS_LUA_SCRIPT key L W now d)
  = snd (ZREMRANGEBYSCORE key (now - W * 1000) d).
Proof.
  unfold SlidingWindow.SLIDING_WINDOW_STATUS_LUA_SCRIPT. se_unfold.
  unfold ZREMRANGEBYSCORE, ZCARD, ZRANGE_0_0_WITHSCORES.
  destruct (d !! key) as [[[b|z] l]|] eqn:E; simpl.
  - reflexivity.
  - repeat sw_step; reflexivity.
  - repeat sw_step; reflexivity.
Qed.

Lemma zrem_size key key' c d :
  zcard (snd (ZREMRANGEBYSCORE key c d)) key' <= zcard d key'.
Proof.
  unfold zcard, zset_at, ZREMRANGEBYSCORE.
  destruct (d !! key) as [[[b|z] l]|] eqn:E; simpl; try lia.
  pose proof (zkeep_size c z) as Hs.
  destruct (decide (key' = key)) as [->|Hne].
  - rewrite E. simpl. destruct (decide (zkeep c z = ∅)); simpl.
    + rewrite lookup_delete_eq, map_size_empty. lia.
    + rewrite lookup_insert_eq. lia.
  - destruct (decide (zkeep c z = ∅)); simpl;
      rewrite ?lookup_insert_ne, ?lookup_delete_ne by congruence; lia.
Qed.

Lemma delete_size key key' (d : db) :
  zcard (delete key d) key' <= zcard d key'.
Proof.
  unfold zcard, zset_at. destruct (decide (key' = key)) as [->|Hne].
  - rewrite lookup_delete_eq, map_size_empty. lia.
  - rewrite lookup_delete_ne by congruence. lia.
Qed.

Lemma exec_world {A} n (s : script A) w :
  connected (snd (execute_lua_script n s w)) = connected w /\
  (store (snd (execute_lua_script n s w)) = store w \/
   store (snd (execute_lua_script n s w)) = snd (s (store w))).
Proof.
  unfold execute_lua_script, client, round_trip. se_unfold.
  destruct (connected w) eqn:Hc; simpl; [|auto].
  destruct n as [|e|e]; simpl.
  - destruct (s (store w)) as [[e|a] d']; simpl; [destruct (is_RedisError e)|]; simpl; auto.
  - destruct (is_RedisError e); simpl; auto.
  - destruct (is_RedisError e); simpl; auto.
Qed.

Lemma sw_check_world i L W t r n w :
  snd (SlidingWindow.check i L W t r n w)
  = snd (execute_lua_script n
           (SlidingWindow.SLIDING_WINDOW_LUA_SCRIPT (SlidingWindow._get_key i)
              L W (SlidingWindow.current_time_ms t) r) w).
Proof.
  unfold SlidingWindow.check. se_unfold.
  destruct (execute_lua_script _ _ _) as [[e|[[[r0 r1] r2] r3]] w']; reflexivity.
Qed.

Lemma sw_status_world i L W t n w :
  snd (SlidingWindow.get_status i L W t n w)
  = snd (execute_lua_script n
           (SlidingWindow.SLIDING_WINDOW_STATUS_LUA_SCRIPT
              (SlidingWindow._get_key i) L W (SlidingWindow.current_time_ms t)) w).
Proof.
  unfold SlidingWindow.get_status. se_unfold.
  destruct (execute_lua_script _ _ _) as [[e|[[r0 r1] r2]] w']; reflexivity.
Qed.

Lemma delete_key_world n key w :
  connected (snd (delete_key n key w)) = connected w /\
  (store (snd (delete_key n key w)) = store w \/
   store (snd (delete_key n key w)) = delete key (store w)).
Proof.
  unfold delete_key, client, round_trip, DEL. se_unfold.
  destruct (connected w) eqn:Hc; simpl; [|auto].
  destruct n as [|e|e]; simpl.
  - destruct (store w !! key) eqn:E; simpl; auto.
  - destruct (is_RedisError e); simpl; auto.
  - destruct (is_RedisError e); simpl; destruct (store w !! key) eqn:E; simpl; auto.
Qed.

Lemma sw_reset_world i n w :
  snd (SlidingWindow.reset i n w)
  = snd (delete_key n (SlidingWindow._get_key i) w).
Proof.
  unfold SlidingWindow.reset. se_unfold.
  destruct (delete_key _ _ _) as [[e|b] w']; reflexivity.
Qed.

Lemma sw_script_bounded key L W now rnd d :
  bounded L d ->
  bounded L (snd (SlidingWindow.SLIDING_WINDOW_LUA_SCRIPT key L W now rnd d)).
Proof.
  intros H key'. destruct (decide (key' = key)) as [->|Hne].
  - apply sw_script_size, H.
  - unfold zcard, zset_at. rewrite sw_script_frame by assumption. apply H.
Qed.

Lemma step_bounded L ev w :
  bounded L (store w) -> bounded L (store (SlidingWindowRun.step L ev w)).
Proof.
  intros H. destruct ev as [i s t r n|i l s t n|i n|key]; simpl.
  - rewrite sw_check_world.
    destruct (exec_world n (SlidingWindow.SLIDING_WINDOW_LUA_SCRIPT
                (SlidingWindow._get_key i) L s (SlidingWindow.current_time_ms t) r) w)
      as [_ [-> | ->]]; [assumption|].
    apply sw_script_bounded, H.
  - rewrite sw_status_world.
    destruct (exec_world n (SlidingWindow.SLIDING_WINDOW_STATUS_LUA_SCRIPT
                (SlidingWindow._get_key i) l s (SlidingWindow.current_time_ms t)) w)
      as [_ [-> | ->]]; [assumption|].
    rewrite sw_status_state. intros key'.
    eapply Z.le_trans; [apply zrem_size|apply H].
  - rewrite sw_reset_world.
    destruct (delete_key_world n (SlidingWindow._get_key i) w) as [_ [-> | ->]];
      [assumption|].
    intros key'. eapply Z.le_trans; [apply delete_size|apply H].
  - intros key'. eapply Z.le_trans; [apply delete_size|apply H].
Qed.

(** C1.  Sliding-window size bound.  Take any limit [L >= 1] and any
    keyspace whose sorted sets hold at most [L] entries each (the empty
    keyspace is one).  After any sequence of events -- checks with limit [L]
    on any identifiers, at any clock readings, with any nonces and any
    network outcome, interleaved with status calls, resets and key
    expirations -- the sorted set stored under the key of every identifier
    still holds at most [L] entries.  Since the sequence is arbitrary, the
    bound holds after each check of it. *)
Theorem sliding_window_size_bound L evs w :
  1 <= L ->
  (forall key, SlidingWindowRun.zcard (store w) key <= L) ->
  forall identifier,
    SlidingWindowRun.zcard (store (SlidingWindowRun.run L evs w))
      (SlidingWindow._get_key identifier) <= L.
Proof.
  intros _ H identifier. revert w H. unfold SlidingWindowRun.run.
  induction evs as [|ev evs IH]; intros w H; simpl.
  - apply H.
  - apply IH. apply step_bounded. exact H.
Qed.

(** ** Sliding window: pruning twice *)

Lemma zkeep_zkeep c1 c2 (z : gmap string Z) :
  zkeep c2 (zkeep c1 z) = zkeep (Z.max c1 c2) z.
Proof.
  unfold zkeep. rewrite map_filter_filter.
  apply map_filter_ext. intros i x _. simpl. lia.
Qed.

Lemma zkeep_empty c1 c2 (z : gmap string Z) :
  c1 <= c2 -> zkeep c1 z = ∅ -> zkeep c2 z = ∅.
Proof.
  intros Hle He. replace c2 with (Z.max c1 c2) by lia.
  rewrite <- zkeep_zkeep, He. apply map_filter_empty.
Qed.

Lemma zrem_zrem key c1 c2 d :
  snd (ZREMRANGEBYSCORE key c2 (snd (ZREMRANGEBYSCORE key c1 d)))
  = snd (ZREMRANGEBYSCORE key (Z.max c1 c2) d).
Proof.
  unfold ZREMRANGEBYSCORE.
  destruct (d !! key) as [[[b|z] l]|] eqn:E; simpl; rewrite ?E; try reflexivity.
  destruct (decide (zkeep c1 z = ∅)) as [He|Hne]; simpl.
  - rewrite lookup_delete_eq.
    assert (zkeep (Z.max c1 c2) z = ∅) as -> by (apply (zkeep_empty c1); [lia|assumption]).
    reflexivity.
  - rewrite lookup_insert_eq, zkeep_zkeep.
    destruct (decide (zkeep (Z.max c1 c2) z = ∅)); simpl.
    + apply delete_insert_eq.
    + apply insert_insert_eq.
Qed.

Lemma zrem_absorb {B} key c1 c2 (k : script B) d :
  c1 <= c2 ->
  SE.bind (ZREMRANGEBYSCORE key c2) (fun _ => k) (snd (ZREMRANGEBYSCORE key c1 d))
  = SE.bind (ZREMRANGEBYSCORE key c2) (fun _ => k) d.
Proof.
  intros Hle. unfold SE.bind, ZREMRANGEBYSCORE.
  destruct (d !! key) as [[[b|z] l]|] eqn:E; simpl; rewrite ?E; try reflexivity.
  assert (Hz : zkeep c2 (zkeep c1 z) = zkeep c2 z).
  { rewrite zkeep_zkeep. f_equal. lia. }
  destruct (decide (zkeep c1 z = ∅)) as [He|Hne]; simpl.
  - rewrite lookup_delete_eq, (zkeep_empty c1 c2 z Hle He).
    destruct (decide (∅ = ∅)); [reflexivity|congruence].
  - rewrite lookup_insert_eq, Hz.
    destruct (decide (zkeep c2 z = ∅)); simpl.
    + rewrite delete_insert_eq. reflexivity.
    + rewrite insert_insert_eq. reflexivity.
Qed.

Lemma world_eta w : World (connected w) (store w) = w.
Proof. destruct w; reflexivity. Qed.

Lemma pruneW_pruneW key c1 c2 w :
  pruneW key c2 (pruneW key c1 w) = pruneW key (Z.max c1 c2) w.
Proof. unfold pruneW. simpl. now rewrite zrem_zrem. Qed.

(** A script that gives the same outcome on a pruned keyspace gives the
    same reply through the client; the worlds afterwards agree, unless the
    script never ran. *)
Lemma exec_absorb {A} n (s : script A) key c0 w :
  s (snd (ZREMRANGEBYSCORE key c0 (store w))) = s (store w) ->
  fst (execute_lua_script n s (pruneW key c0 w))
  = fst (execute_lua_script n s w) /\
  (snd (execute_lua_script n s (pruneW key c0 w))
   = snd (execute_lua_script n s w) \/
   snd (execute_lua_script n s (pruneW key c0 w)) = pruneW key c0 w /\
   snd (execute_lua_script n s w) = w).
Proof.
  intros Hs. unfold execute_lua_script, client, round_trip, pruneW. se_unfold.
  destruct w as [c d]. simpl in *. destruct c; simpl; [|auto].
  destruct n as [|e|e]; simpl.
  - rewrite Hs. destruct (s d) as [[e|a] d']; simpl;
      [destruct (is_RedisError e)|]; simpl; auto.
  - destruct (is_RedisError e); simpl; auto.
  - rewrite Hs. destruct (is_RedisError e); simpl; auto.
Qed.

Lemma sw_check_result i L W t r n w :
  fst (SlidingWindow.check i L W t r n w)
  = sw_parse (fst (execute_lua_script n
           (SlidingWindow.SLIDING_WINDOW_LUA_SCRIPT (SlidingWindow._get_key i)
              L W (SlidingWindow.current_time_ms t) r) w)).
Proof.
  unfold SlidingWindow.check. se_unfold.
  destruct (execute_lua_script _ _ _) as [[e|[[[r0 r1] r2] r3]] w']; reflexivity.
Qed.

Lemma sw_check_absorb i L W t r n c0 w :
  c0 <= SlidingWindowRun.window_start W t ->
  let key := SlidingWindow._get_key i in
  fst (SlidingWindow.check i L W t r n (pruneW key c0 w))
  = fst (SlidingWindow.check i L W t r n w) /\
  (snd (SlidingWindow.check i L W t r n (pruneW key c0 w))
   = snd (SlidingWindow.check i L W t r n w) \/
   snd (SlidingWindow.check i L W t r n (pruneW key c0 w)) = pruneW key c0 w /\
   snd (SlidingWindow.check i L W t r n w) = w).
Proof.
  intros Hle key. rewrite !sw_check_result, !sw_check_world.
  fold key.
  destruct (exec_absorb n
     (SlidingWindow.SLIDING_WINDOW_LUA_SCRIPT key L W
        (SlidingWindow.current_time_ms t) r) key c0 w) as [Hf Hw].
  { unfold SlidingWindow.SLIDING_WINDOW_LUA_SCRIPT.
    apply zrem_absorb. exact Hle. }
  rewrite Hf. auto.
Qed.

Lemma sw_status_worlds i L W t n w :
  let key := SlidingWindow._get_key i in
  snd (SlidingWindow.get_status i L W t n w) = w \/
  snd (SlidingWindow.get_status i L W t n w)
  = pruneW key (SlidingWindowRun.window_start W t) w.
Proof.
  intros key. rewrite sw_status_world. fold key.
  unfold execute_lua_script, client, round_trip, pruneW. se_unfold.
  destruct w as [c d]. simpl. destruct c; simpl; [|auto].
  destruct n as [|e|e]; simpl.
  - right.
    pose proof (sw_status_state key L W (SlidingWindow.current_time_ms t) d) as Hs.
    destruct (SlidingWindow.SLIDING_WINDOW_STATUS_LUA_SCRIPT _ _ _ _ _)
      as [[e|a] d']; simpl in *; [destruct (is_RedisError e)|]; simpl;
      rewrite Hs; reflexivity.
  - left. destruct (is_RedisError e); reflexivity.
  - right. rewrite sw_status_state.
    destruct (is_RedisError e); simpl; reflexivity.
Qed.

Lemma sw_results_absorb i cs :
  SlidingWindowRun.status_within_checks cs ->
  (forall w, SlidingWindowRun.results i cs w
             = SlidingWindowRun.results i
                 (List.filter SlidingWindowRun.is_check cs) w) /\
  (forall w c0,
     Forall (fun c' => SlidingWindowRun.is_check c' = true ->
                       c0 <= SlidingWindowRun.call_window_start c') cs ->
     SlidingWindowRun.results i cs (pruneW (SlidingWindow._get_key i) c0 w)
     = SlidingWindowRun.results i
         (List.filter SlidingWindowRun.is_check cs) w).
Proof.
  induction cs as [|c cs IH]; intros Hok; [split; reflexivity|].
  destruct Hok as [Hc Hok]. destruct (IH Hok) as [IHa IHb]. clear IH.
  destruct c as [l s t r n|l s t n]; simpl in *.
  - split.
    + intros w. destruct (SlidingWindow.check i l s t r n w) as [res w'].
      now rewrite IHa.
    + intros w c0 HF. apply Forall_cons in HF as [H0 HF].
      specialize (H0 eq_refl).
      destruct (sw_check_absorb i l s t r n c0 w H0) as [Hf Hw].
      destruct (SlidingWindow.check i l s t r n
                  (pruneW (SlidingWindow._get_key i) c0 w)) as [res1 w1].
      destruct (SlidingWindow.check i l s t r n w) as [res2 w2].
      simpl in Hf, Hw. subst res2. f_equal.
      destruct Hw as [->|[-> ->]]; [apply IHa|apply IHb, HF].
  - specialize (Hc eq_refl). split.
    + intros w.
      destruct (sw_status_worlds i l s t n w) as [-> | ->];
        [apply IHa|apply IHb, Hc].
    + intros w c0 HF. apply Forall_cons in HF as [_ HF].
      destruct (sw_status_worlds i l s t n
                  (pruneW (SlidingWindow._get_key i) c0 w)) as [-> | ->].
      * apply IHb, HF.
      * rewrite pruneW_pruneW. apply IHb.
        rewrite Forall_forall in *. intros c' Hin Hck.
        specialize (HF c' Hin Hck). specialize (Hc c' Hin Hck).
        apply Z.max_lub; assumption.
Qed.

Lemma tb_status_world i L W t n w :
  snd (TokenBucket.get_status i L W t n w) = w.
Proof.
  unfold TokenBucket.get_status, TokenBucket.true_div. se_unfold.
  destruct (W =? 0); [reflexivity|].
  unfold execute_lua_script, client, round_trip. se_unfold.
  destruct w as [c d]. simpl. destruct c; simpl; [|reflexivity].
  assert (Hs : forall rate,
    snd (TokenBucket.TOKEN_BUCKET_STATUS_LUA_SCRIPT (TokenBucket._get_key i)
           (QZ L) rate t d) = d).
  { intros rate. unfold TokenBucket.TOKEN_BUCKET_STATUS_LUA_SCRIPT, HMGET.
    se_unfold. destruct (d !! _) as [[[b|z] l]|]; reflexivity. }
  specialize (Hs (QZ L / QZ W)%Q).
  destruct n as [|e|e]; simpl.
  - destruct (TokenBucket.TOKEN_BUCKET_STATUS_LUA_SCRIPT _ _ _ _ _)
      as [[e|[[r0 r1] r2]] d']; simpl in *; subst;
      [destruct (is_RedisError e)|]; reflexivity.
  - destruct (is_RedisError e); reflexivity.
  - rewrite Hs. destruct (is_RedisError e); reflexivity.
Qed.

Lemma tb_results_status_free i cs w :
  TokenBucketRun.results i cs w
  = TokenBucketRun.results i (List.filter TokenBucketRun.is_check cs) w.
Proof.
  revert w. induction cs as [|c cs IH]; intros w; [reflexivity|].
  destruct c as [l s t n|l s t n]; simpl.
  - destruct (TokenBucket.check i l s t n w) as [r w']. now rewrite IH.
  - rewrite tb_status_world. apply IH.
Qed.

(** ** Fresh keys, resets and failures *)

Lemma zmin_score_singleton (m : string) (s : Z) :
  zmin_score {[m := s]} = Some s.
Proof. unfold zmin_score. rewrite map_fold_singleton. reflexivity. Qed.

(** The result of a delivered first check on a missing key. *)
Lemma sw_check_fresh i L W t rnd w :
  1 <= L -> 1 <= W -> connected w = true ->
  store w !! SlidingWindow._get_key i = None ->
  fst (SlidingWindow.check i L W t rnd Deliver w)
  = inr (SlidingWindow.Result true (L - 1)
           (format_3f (SlidingWindow.until_expiry
                         (SlidingWindow.current_time_ms t) W
                         (SlidingWindow.current_time_ms t)))
           None).
Proof.
  intros HL HW Hc Hk. rewrite sw_check_result.
  unfold execute_lua_script, client, round_trip. se_unfold. rewrite Hc.
  unfold SlidingWindow.SLIDING_WINDOW_LUA_SCRIPT. se_unfold.
  unfold ZREMRANGEBYSCORE, ZCARD, ZADD, EXPIRE, ZRANGE_0_0_WITHSCORES.
  rewrite Hk. simpl. rewrite Hk. simpl.
  destruct (Z.ltb_spec 0 L); [|lia]. simpl. rewrite Hk. simpl.
  rewrite lookup_insert_eq. simpl.
  destruct (Z.leb_spec (W * 2) 0); [lia|]. simpl.
  rewrite lookup_insert_eq. simpl. rewrite zmin_score_singleton.
  simpl. do 3 f_equal. lia.
Qed.

Lemma tb_check_fresh i L W now w :
  1 <= L -> 1 <= W -> connected w = true ->
  store w !! TokenBucket._get_key i = None ->
  TokenBucket.check i L W now Deliver w
  = (inr (tb_result (QZ L) (QZ L / QZ W) (QZ L)),
     World true (<[TokenBucket._get_key i :=
                    Entry (VHash (Bucket (consumed (QZ L)) now))
                          (Some (2 * W))]> (store w))).
Proof.
  intros HL HW Hc Hk.
  assert (Hget : fst (HMGET (TokenBucket._get_key i) (store w)) = inr None).
  { unfold HMGET. rewrite Hk. reflexivity. }
  rewrite (tb_check_run _ _ _ _ _ _ Hc HW Hget). simpl.
  rewrite refilled_fresh. reflexivity.
Qed.

Lemma delete_key_run key w :
  connected w = true ->
  delete_key Deliver key w
  = (inr (if store w !! key is Some _ then true else false),
     World true (delete key (store w))).
Proof.
  intros Hc. unfold delete_key, client, round_trip, DEL. se_unfold.
  rewrite Hc. destruct (store w !! key) eqn:E; simpl; rewrite Hc; [reflexivity|].
  rewrite delete_id by assumption. reflexivity.
Qed.

Lemma tb_reset_run i w :
  connected w = true ->
  TokenBucket.reset i Deliver w
  = (inr (if store w !! TokenBucket._get_key i is Some _ then true else false),
     World true (delete (TokenBucket._get_key i) (store w))).
Proof.
  intros Hc. unfold TokenBucket.reset. se_unfold.
  rewrite (delete_key_run _ _ Hc). reflexivity.
Qed.

Lemma sw_reset_run i w :
  connected w = true ->
  SlidingWindow.reset i Deliver w
  = (inr (if store w !! SlidingWindow._get_key i is Some _ then true else false),
     World true (delete (SlidingWindow._get_key i) (store w))).
Proof.
  intros Hc. unfold SlidingWindow.reset. se_unfold.
  rewrite (delete_key_run _ _ Hc). reflexivity.
Qed.

Lemma exec_inr {A} n (s : script A) w a :
  fst (execute_lua_script n s w) = inr a ->
  connected w = true /\ n = Deliver /\ fst (s (store w)) = inr a.
Proof.
  unfold execute_lua_script, client, round_trip. se_unfold.
  destruct (connected w); simpl; [|discriminate].
  destruct n as [|e|e]; simpl.
  - destruct (s (store w)) as [[e|a'] d']; simpl;
      [destruct (is_RedisError e); discriminate|]. auto.
  - destruct (is_RedisError e); discriminate.
  - destruct (is_RedisError e); discriminate.
Qed.

Lemma tb_check_inr i L W now n w r :
  1 <= W ->
  fst (TokenBucket.check i L W now n w) = inr r ->
  exists ob,
    fst (HMGET (TokenBucket._get_key i) (store w)) = inr ob /\
    r = tb_result (QZ L) (QZ L / QZ W)
          (refilled (QZ L) (QZ L / QZ W) now (seed (QZ L) now ob)).
Proof.
  intros HW H.
  assert (Hn : connected w = true /\ n = Deliver /\
               exists ob, fst (HMGET (TokenBucket._get_key i) (store w)) = inr ob).
  { revert H. unfold TokenBucket.check, TokenBucket.true_div.
    destruct (W =? 0) eqn:E0; [apply Z.eqb_eq in E0; lia|]. se_unfold.
    destruct (execute_lua_script _ _ _) as [[e|a] w'] eqn:E; [discriminate|].
    intros _. assert (E' : fst (execute_lua_script n
       (TokenBucket.TOKEN_BUCKET_LUA_SCRIPT (TokenBucket._get_key i) (QZ L)
          (QZ L / QZ W) now (QZ W)) w) = inr a) by (rewrite E; reflexivity).
    apply exec_inr in E' as (Hc & Hn & Hs). repeat split; try assumption.
    revert Hs. unfold TokenBucket.TOKEN_BUCKET_LUA_SCRIPT. unfold SE.bind at 1.
    destruct (HMGET _ _) as [[e|ob] d']; simpl; [discriminate|]. eauto. }
  destruct Hn as (Hc & -> & ob & Hget). exists ob. split; [assumption|].
  rewrite (tb_check_run _ _ _ _ _ _ Hc HW Hget) in H. simpl in H. congruence.
Qed.

Lemma Qdiv_le_compat a b c : (0 < c)%Q -> (a <= b)%Q -> (a / c <= b / c)%Q.
Proof.
  intros Hc Hab. unfold Qdiv. apply Qmult_le_compat_r; [assumption|].
  apply Qinv_le_0_compat. lra.
Qed.

(** C9.  For capacity [C >= 1] and window [W >= 1], every denied
    token-bucket check carries a [retry_after] that is at most its
    [reset_in_seconds]. *)
Theorem token_bucket_retry_before_reset identifier C W now n w r :
  1 <= C -> 1 <= W ->
  fst (TokenBucket.check identifier C W now n w) = inr r ->
  TokenBucket.allowed r = false ->
  exists ra, TokenBucket.retry_after r = Some ra /\
             (ra <= TokenBucket.reset_in_seconds r)%Q.
Proof.
  intros HC HW Hr Hden.
  destruct (tb_check_inr _ _ _ _ _ _ _ HW Hr) as (ob & _ & ->).
  set (rate := (QZ C / QZ W)%Q) in *.
  set (t := refilled (QZ C) rate now (seed (QZ C) now ob)) in *.
  unfold tb_result in *. simpl in *. rewrite Hden.
  eexists. split; [reflexivity|].
  assert (Hrate : (0 < rate)%Q) by (apply rate_pos; assumption).
  assert (Ht : (t < 1)%Q).
  { apply Qnot_le_lt. intros H. apply Qle_bool_iff in H. congruence. }
  assert (H1C : (1 <= QZ C)%Q) by (change 1%Q with (QZ 1); apply QZ_le; lia).
  unfold consumed. rewrite Hden. unfold retry_time, reset_time.
  assert (E1 : Qlt_bool 0 rate = true) by (apply Qlt_bool_true; assumption).
  assert (E2 : Qlt_bool 0 (QZ C - t) = true) by (apply Qlt_bool_true; lra).
  rewrite E1, E2. simpl. apply format_3f_mono, Qdiv_le_compat; [assumption|lra].
Qed.

Lemma tb_result_fresh L W :
  1 <= L ->
  TokenBucket.allowed (tb_result (QZ L) (QZ L / QZ W) (QZ L)) = true /\
  TokenBucket.remaining (tb_result (QZ L) (QZ L / QZ W) (QZ L)) = L - 1.
Proof.
  intros HL. unfold tb_result. simpl.
  assert (E : Qle_bool 1 (QZ L) = true).
  { apply Qle_bool_iff. change 1%Q with (QZ 1). apply QZ_le. lia. }
  unfold consumed. rewrite E. split; [reflexivity|].
  apply Qfloor_QZ_minus_1. reflexivity.
Qed.

(** C3.  With no stored state for the identifier, [L >= 1] and [W >= 1],
    the first delivered check returns [allowed = true] and
    [remaining = L - 1], for the token bucket and for the sliding
    window. *)
Theorem first_check_allowed identifier L W now clock rnd w :
  1 <= L -> 1 <= W -> connected w = true ->
  store w !! TokenBucket._get_key identifier = None ->
  store w !! SlidingWindow._get_key identifier = None ->
  (exists r,
     fst (TokenBucket.check identifier L W now Deliver w) = inr r /\
     TokenBucket.allowed r = true /\ TokenBucket.remaining r = L - 1) /\
  (exists r,
     fst (SlidingWindow.check identifier L W clock rnd Deliver w) = inr r /\
     SlidingWindow.allowed r = true /\ SlidingWindow.remaining r = L - 1).
Proof.
  intros HL HW Hc Htb Hsw. split.
  - rewrite (tb_check_fresh _ _ _ _ _ HL HW Hc Htb). simpl.
    eexists. split; [reflexivity|]. apply tb_result_fresh, HL.
  - rewrite (sw_check_fresh _ _ _ _ _ _ HL HW Hc Hsw).
    eexists. repeat split.
Qed.

(** C5.  For [L >= 1], [W >= 1] and either algorithm: a delivered reset
    returns whether the key existed, and the check that follows returns
    what a check on a world that never saw the identifier returns, namely
    [allowed = true] and [remaining = L - 1]. *)
Theorem reset_then_check identifier L W now clock rnd w w0 :
  1 <= L -> 1 <= W -> connected w = true -> connected w0 = true ->
  store w0 !! TokenBucket._get_key identifier = None ->
  store w0 !! SlidingWindow._get_key identifier = None ->
  (fst (TokenBucket.reset identifier Deliver w)
   = inr (if store w !! TokenBucket._get_key identifier is Some _
          then true else false) /\
   fst (TokenBucket.check identifier L W now Deliver
          (snd (TokenBucket.reset identifier Deliver w)))
   = fst (TokenBucket.check identifier L W now Deliver w0) /\
   exists r,
     fst (TokenBucket.check identifier L W now Deliver
            (snd (TokenBucket.reset identifier Deliver w))) = inr r /\
     TokenBucket.allowed r = true /\ TokenBucket.remaining r = L - 1) /\
  (fst (SlidingWindow.reset identifier Deliver w)
   = inr (if store w !! SlidingWindow._get_key identifier is Some _
          then true else false) /\
   fst (SlidingWindow.check identifier L W clock rnd Deliver
          (snd (SlidingWindow.reset identifier Deliver w)))
   = fst (SlidingWindow.check identifier L W clock rnd Deliver w0) /\
   exists r,
     fst (SlidingWindow.check identifier L W clock rnd Deliver
            (snd (SlidingWindow.reset identifier Deliver w))) = inr r /\
     SlidingWindow.allowed r = true /\ SlidingWindow.remaining r = L - 1).
Proof.
  intros HL HW Hc Hc0 Htb Hsw. split.
  - rewrite (tb_reset_run _ _ Hc). simpl. split; [reflexivity|].
    rewrite (tb_check_fresh identifier L W now w0 HL HW Hc0 Htb).
    rewrite (tb_check_fresh identifier L W now
               (World true (delete (TokenBucket._get_key identifier) (store w)))
               HL HW eq_refl (lookup_delete_eq _ _)).
    simpl. split; [reflexivity|]. eexists. split; [reflexivity|].
    apply tb_result_fresh, HL.
  - rewrite (sw_reset_run _ _ Hc). simpl. split; [reflexivity|].
    rewrite (sw_check_fresh identifier L W clock rnd w0 HL HW Hc0 Hsw).
    rewrite (sw_check_fresh identifier L W clock rnd
               (World true (delete (SlidingWindow._get_key identifier) (store w)))
               HL HW eq_refl (lookup_delete_eq _ _)).
    split; [reflexivity|]. eexists. repeat split.
Qed.

Lemma trunc_QZ z : trunc (QZ z) = z.
Proof. unfold trunc, QZ. simpl. apply Z.quot_1_r. Qed.

(** C10.  With no stored token-bucket state, [L >= 1] and [W >= 1],
    a delivered [get_status] returns [requests_used = 0], [remaining = L]
    and [reset_in_seconds = 0] and leaves the world as it was; the check
    that follows is a first check. *)
Theorem token_bucket_status_fresh identifier L W now w :
  1 <= L -> 1 <= W -> connected w = true ->
  store w !! TokenBucket._get_key identifier = None ->
  TokenBucket.get_status identifier L W now Deliver w
  = (inr (TokenBucket.MkStatus 0 L 0%Q), w) /\
  exists r,
    fst (TokenBucket.check identifier L W now Deliver
           (snd (TokenBucket.get_status identifier L W now Deliver w)))
    = inr r /\
    TokenBucket.allowed r = true /\ TokenBucket.remaining r = L - 1.
Proof.
  intros HL HW Hc Hk.
  assert (E : TokenBucket.get_status identifier L W now Deliver w
              = (inr (TokenBucket.MkStatus 0 L 0%Q), w)).
  { unfold TokenBucket.get_status, TokenBucket.true_div.
    destruct (W =? 0) eqn:E0; [apply Z.eqb_eq in E0; lia|].
    unfold execute_lua_script, client, round_trip. se_unfold. rewrite Hc.
    unfold TokenBucket.TOKEN_BUCKET_STATUS_LUA_SCRIPT, HMGET. se_unfold.
    rewrite Hk. simpl. rewrite trunc_QZ. f_equal. apply world_eta. }
  rewrite E. split; [reflexivity|]. simpl.
  rewrite (tb_check_fresh _ _ _ _ _ HL HW Hc Hk). simpl.
  eexists. split; [reflexivity|]. apply tb_result_fresh, HL.
Qed.

Lemma exec_net_failure {A} n (s : script A) w e :
  connected w = true -> n = FailBefore e \/ n = FailAfter e ->
  fst (execute_lua_script n s w) = inl e.
Proof.
  intros Hc [-> | ->]; unfold execute_lua_script, client, round_trip;
    se_unfold; rewrite Hc; simpl; destruct (is_RedisError e); reflexivity.
Qed.

(** C7.  For check, status and reset of both limiters: when the store
    operation the call makes raises [e] (a lost request or reply, a
    missing connection, an error reply), the call raises the same [e] and
    returns no result.  [W <> 0] makes the token-bucket calls reach the
    store at all. *)
Theorem store_errors_propagate identifier L W now clock rnd n w e :
  W <> 0 ->
  (fst (execute_lua_script n
          (TokenBucket.TOKEN_BUCKET_LUA_SCRIPT
             (TokenBucket._get_key identifier) (QZ L) (QZ L / QZ W) now (QZ W))
          w) = inl e ->
   fst (TokenBucket.check identifier L W now n w) = inl e) /\
  (fst (execute_lua_script n
          (TokenBucket.TOKEN_BUCKET_STATUS_LUA_SCRIPT
             (TokenBucket._get_key identifier) (QZ L) (QZ L / QZ W) now)
          w) = inl e ->
   fst (TokenBucket.get_status identifier L W now n w) = inl e) /\
  (fst (delete_key n (TokenBucket._get_key identifier) w) = inl e ->
   fst (TokenBucket.reset identifier n w) = inl e) /\
  (fst (execute_lua_script n
          (SlidingWindow.SLIDING_WINDOW_LUA_SCRIPT
             (SlidingWindow._get_key identifier) L W
             (SlidingWindow.current_time_ms clock) rnd)
          w) = inl e ->
   fst (SlidingWindow.check identifier L W clock rnd n w) = inl e) /\
  (fst (execute_lua_script n
          (SlidingWindow.SLIDING_WINDOW_STATUS_LUA_SCRIPT
             (SlidingWindow._get_key identifier) L W
             (SlidingWindow.current_time_ms clock))
          w) = inl e ->
   fst (SlidingWindow.get_status identifier L W clock n w) = inl e) /\
  (fst (delete_key n (SlidingWindow._get_key identifier) w) = inl e ->
   fst (SlidingWindow.reset identifier n w) = inl e).
Proof.
  intros HW.
  assert (E0 : (W =? 0) = false) by (apply Z.eqb_neq; assumption).
  repeat split; intros H.
  - unfold TokenBucket.check, TokenBucket.true_div. rewrite E0. se_unfold.
    destruct (execute_lua_script _ _ _) as [[e'|a] w']; simpl in *;
      [congruence|discriminate].
  - unfold TokenBucket.get_status, TokenBucket.true_div. rewrite E0. se_unfold.
    destruct (execute_lua_script _ _ _) as [[e'|a] w']; simpl in *;
      [congruence|discriminate].
  - unfold TokenBucket.reset. se_unfold.
    destruct (delete_key _ _ _) as [[e'|a] w']; simpl in *;
      [congruence|discriminate].
  - unfold SlidingWindow.check. se_unfold.
    destruct (execute_lua_script _ _ _) as [[e'|a] w']; simpl in *;
      [congruence|discriminate].
  - unfold SlidingWindow.get_status. se_unfold.
    destruct (execute_lua_script _ _ _) as [[e'|a] w']; simpl in *;
      [congruence|discriminate].
  - unfold SlidingWindow.reset. se_unfold.
    destruct (delete_key _ _ _) as [[e'|a] w']; simpl in *;
      [congruence|discriminate].
Qed.

(** C8, amended.  For an identifier with no stored state, the reset of
    each limiter succeeds and returns [False].  The endpoint with no
    algorithm selected succeeds with the message
    ["Rate limit reset for <identifier>"], which carries no count; with an
    algorithm selected it raises HTTP 404
    ["No rate limit data found for <identifier>"].  The keyspace is
    unchanged. *)
Theorem reset_endpoint_without_state identifier w :
  connected w = true ->
  store w !! TokenBucket._get_key identifier = None ->
  store w !! SlidingWindow._get_key identifier = None ->
  TokenBucket.reset identifier Deliver w = (inr false, w) /\
  SlidingWindow.reset identifier Deliver w = (inr false, w) /\
  Main.reset_rate_limit identifier None Deliver Deliver w
  = (inr {| Main.message := "Rate limit reset for " +:+ identifier |}, w) /\
  forall a,
    Main.reset_rate_limit identifier (Some a) Deliver Deliver w
    = (inl (HTTPException 404
              ("No rate limit data found for " +:+ identifier)), w).
Proof.
  intros Hc Htb Hsw.
  assert (Hw : World true (store w) = w) by (rewrite <- Hc; apply world_eta).
  assert (E1 : TokenBucket.reset identifier Deliver w = (inr false, w)).
  { rewrite (tb_reset_run _ _ Hc), Htb, delete_id, Hw by assumption.
    reflexivity. }
  assert (E2 : SlidingWindow.reset identifier Deliver w = (inr false, w)).
  { rewrite (sw_reset_run _ _ Hc), Hsw, delete_id, Hw by assumption.
    reflexivity. }
  repeat split; try assumption.
  - unfold Main.reset_rate_limit. se_unfold. simpl. rewrite E1, E2. reflexivity.
  - intros [|]; unfold Main.reset_rate_limit; se_unfold; simpl;
      rewrite ?E1, ?E2; reflexivity.
Qed.

(** ** Bursts *)












(** C6, amended.  Token bucket: a status call leaves the world as it
    was, so removing the status calls from any call sequence leaves the
    outcomes of its checks unchanged.  Sliding window: the same holds for
    every call sequence in which no status call prunes beyond what each
    later check prunes itself (its clock reading minus its window is not
    later than theirs), as when all calls share one window and the clock
    does not go back. *)
Theorem status_calls_do_not_change_checks identifier tcs scs w :
  SlidingWindowRun.status_within_checks scs ->
  (forall l s t n w', snd (TokenBucket.get_status identifier l s t n w') = w') /\
  TokenBucketRun.results identifier tcs w
  = TokenBucketRun.results identifier
      (List.filter TokenBucketRun.is_check tcs) w /\
  SlidingWindowRun.results identifier scs w
  = SlidingWindowRun.results identifier
      (List.filter SlidingWindowRun.is_check scs) w.
Proof.
  intros Hok. split; [|split].
  - intros. apply tb_status_world.
  - apply tb_results_status_free.
  - apply (sw_results_absorb identifier scs Hok).
Qed.

(** C6, witness: a status call between two checks, all with window 60. *)
Lemma status_calls_do_not_change_checks_witness :
  (forall l s t n w',
     snd (TokenBucket.get_status "user_123" l s t n w') = w') /\
  TokenBucketRun.results "user_123"
    [TokenBucketRun.CallCheck 2 60 0 Deliver;
     TokenBucketRun.CallStatus 2 60 1 Deliver;
     TokenBucketRun.CallCheck 2 60 2 Deliver] (World true ∅)
  = TokenBucketRun.results "user_123"
      [TokenBucketRun.CallCheck 2 60 0 Deliver;
       TokenBucketRun.CallCheck 2 60 2 Deliver] (World true ∅) /\
  SlidingWindowRun.results "user_123"
    [SlidingWindowRun.CallCheck 1 60 0 7 Deliver;
     SlidingWindowRun.CallStatus 1 60 5 Deliver;
     SlidingWindowRun.CallCheck 1 60 6 8 Deliver] (World true ∅)
  = SlidingWindowRun.results "user_123"
      [SlidingWindowRun.CallCheck 1 60 0 7 Deliver;
       SlidingWindowRun.CallCheck 1 60 6 8 Deliver] (World true ∅).
Proof.
  apply (status_calls_do_not_change_checks "user_123"
           [TokenBucketRun.CallCheck 2 60 0 Deliver;
            TokenBucketRun.CallStatus 2 60 1 Deliver;
            TokenBucketRun.CallCheck 2 60 2 Deliver]
           [SlidingWindowRun.CallCheck 1 60 0 7 Deliver;
            SlidingWindowRun.CallStatus 1 60 5 Deliver;
            SlidingWindowRun.CallCheck 1 60 6 8 Deliver]
           (World true ∅)).
  simpl. repeat split; try discriminate.
  intros _. repeat constructor. intros _. vm_compute. discriminate.
Defined.

(** C6, counterexample to the claim as stated: limit 1; a check at 0 s
    with window 60, a status call at 5 s with window 1, a check at 6 s with
    window 60.  The status call removes the entry of the first check, so
    the second check is allowed; without the status call it is denied. *)
Lemma status_calls_do_not_change_checks_counterexample :
  exists r_with r_without,
    SlidingWindowRun.results "user_123"
      [SlidingWindowRun.CallCheck 1 60 0 7 Deliver;
       SlidingWindowRun.CallStatus 1 1 5 Deliver;
       SlidingWindowRun.CallCheck 1 60 6 8 Deliver] (World true ∅) !! 1%nat
    = Some (inr r_with) /\
    SlidingWindowRun.results "user_123"
      [SlidingWindowRun.CallCheck 1 60 0 7 Deliver;
       SlidingWindowRun.CallCheck 1 60 6 8 Deliver] (World true ∅) !! 1%nat
    = Some (inr r_without) /\
    SlidingWindow.allowed r_with = true /\
    SlidingWindow.remaining r_with = 0 /\
    SlidingWindow.allowed r_without = false.
Proof.
  eexists _, _. split; [vm_compute; reflexivity|].
  split; [vm_compute; reflexivity|]. repeat split.
Qed.

(** ** Concrete instances *)

(** C1, witness: three checks (one whose reply is lost) and a status call
    on an empty keyspace, limit 2. *)
Lemma sliding_window_size_bound_witness :
  SlidingWindowRun.zcard
    (store (SlidingWindowRun.run 2
              [SlidingWindowRun.EvCheck "user_123" 60 0 1 Deliver;
               SlidingWindowRun.EvCheck "user_123" 60 0 2 Deliver;
               SlidingWindowRun.EvStatus "user_123" 2 60 1 Deliver;
               SlidingWindowRun.EvCheck "user_123" 60 1 3 (FailAfter (TimeoutError "timeout"));
               SlidingWindowRun.EvCheck "user_123" 60 1 4 Deliver]
              (World true ∅)))
    (SlidingWindow._get_key "user_123") <= 2.
Proof.
  apply (sliding_window_size_bound 2); [lia|].
  intros key. unfold SlidingWindowRun.zcard, SlidingWindowRun.zset_at. simpl.
  rewrite lookup_empty, map_size_empty. lia.
Defined.


(** C3, witness: limit 5, window 60 on the empty keyspace. *)
Lemma first_check_allowed_witness :
  (exists r,
     fst (TokenBucket.check "user_123" 5 60 (17 # 10) Deliver (World true ∅))
     = inr r /\
     TokenBucket.allowed r = true /\ TokenBucket.remaining r = 5 - 1) /\
  (exists r,
     fst (SlidingWindow.check "user_123" 5 60 (17 # 10) 42 Deliver
            (World true ∅)) = inr r /\
     SlidingWindow.allowed r = true /\ SlidingWindow.remaining r = 5 - 1).
Proof.
  apply (first_check_allowed "user_123" 5 60 (17 # 10) (17 # 10) 42
           (World true ∅)); [lia | lia | reflexivity | reflexivity | reflexivity].
Defined.

(** C5, witness: reset of a stored bucket, compared with the empty
    keyspace. *)
Lemma reset_then_check_witness :
  (fst (TokenBucket.reset "user_123" Deliver drained_world)
   = inr (if store drained_world !! TokenBucket._get_key "user_123" is Some _
          then true else false) /\
   fst (TokenBucket.check "user_123" 5 60 12 Deliver
          (snd (TokenBucket.reset "user_123" Deliver drained_world)))
   = fst (TokenBucket.check "user_123" 5 60 12 Deliver (World true ∅)) /\
   exists r,
     fst (TokenBucket.check "user_123" 5 60 12 Deliver
            (snd (TokenBucket.reset "user_123" Deliver drained_world))) = inr r /\
     TokenBucket.allowed r = true /\ TokenBucket.remaining r = 5 - 1) /\
  (fst (SlidingWindow.reset "user_123" Deliver drained_world)
   = inr (if store drained_world !! SlidingWindow._get_key "user_123" is Some _
          then true else false) /\
   fst (SlidingWindow.check "user_123" 5 60 12 42 Deliver
          (snd (SlidingWindow.reset "user_123" Deliver drained_world)))
   = fst (SlidingWindow.check "user_123" 5 60 12 42 Deliver (World true ∅)) /\
   exists r,
     fst (SlidingWindow.check "user_123" 5 60 12 42 Deliver
            (snd (SlidingWindow.reset "user_123" Deliver drained_world))) = inr r /\
     SlidingWindow.allowed r = true /\ SlidingWindow.remaining r = 5 - 1).
Proof.
  apply (reset_then_check "user_123" 5 60 12 12 42 drained_world (World true ∅));
    [lia | lia | reflexivity | reflexivity | reflexivity | reflexivity].
Defined.

(** C7, witness: a socket timeout on every call. *)
Lemma store_errors_propagate_witness :
  let e := TimeoutError "Timeout reading from socket" in
  let n := FailBefore e in
  let w := World true ∅ in
  fst (TokenBucket.check "user_123" 5 60 12 n w) = inl e /\
  fst (TokenBucket.get_status "user_123" 5 60 12 n w) = inl e /\
  fst (TokenBucket.reset "user_123" n w) = inl e /\
  fst (SlidingWindow.check "user_123" 5 60 12 42 n w) = inl e /\
  fst (SlidingWindow.get_status "user_123" 5 60 12 n w) = inl e /\
  fst (SlidingWindow.reset "user_123" n w) = inl e.
Proof.
  intros e n w.
  destruct (store_errors_propagate "user_123" 5 60 12 12 42 n w e ltac:(lia))
    as (H1 & H2 & H3 & H4 & H5 & H6).
  exact (conj (H1 eq_refl) (conj (H2 eq_refl) (conj (H3 eq_refl)
           (conj (H4 eq_refl) (conj (H5 eq_refl) (H6 eq_refl)))))).
Defined.

(** C8, witness: the empty keyspace. *)
Lemma reset_endpoint_without_state_witness :
  let w := World true ∅ in
  TokenBucket.reset "user_123" Deliver w = (inr false, w) /\
  SlidingWindow.reset "user_123" Deliver w = (inr false, w) /\
  Main.reset_rate_limit "user_123" None Deliver Deliver w
  = (inr {| Main.message := "Rate limit reset for " +:+ "user_123" |}, w) /\
  forall a,
    Main.reset_rate_limit "user_123" (Some a) Deliver Deliver w
    = (inl (HTTPException 404
              ("No rate limit data found for " +:+ "user_123")), w).
Proof.
  apply (reset_endpoint_without_state "user_123" (World true ∅));
    reflexivity.
Defined.

(** C8, counterexample to the claim as stated: resetting the token bucket
    of an unknown identifier raises HTTP 404. *)
Lemma reset_endpoint_without_state_counterexample :
  fst (Main.reset_rate_limit "user_123" (Some Main.TOKEN_BUCKET)
         Deliver Deliver (World true ∅))
  = inl (HTTPException 404 "No rate limit data found for user_123").
Proof. vm_compute. reflexivity. Qed.

(** C9, witness: the denied check of an empty bucket. *)
Lemma token_bucket_retry_before_reset_witness :
  let r := TokenBucket.Result false 0 (60000 # 1000) (Some (12000 # 1000)) in
  exists ra, TokenBucket.retry_after r = Some ra /\
             (ra <= TokenBucket.reset_in_seconds r)%Q.
Proof.
  intros r.
  apply (token_bucket_retry_before_reset "user_123" 5 60 0 Deliver drained_world r);
    [lia | lia | vm_compute; reflexivity | reflexivity].
Defined.

(** C10, witness: the empty keyspace. *)
Lemma token_bucket_status_fresh_witness :
  let w := World true ∅ in
  TokenBucket.get_status "user_123" 5 60 12 Deliver w
  = (inr (TokenBucket.MkStatus 0 5 0%Q), w) /\
  exists r,
    fst (TokenBucket.check "user_123" 5 60 12 Deliver
           (snd (TokenBucket.get_status "user_123" 5 60 12 Deliver w)))
    = inr r /\
    TokenBucket.allowed r = true /\ TokenBucket.remaining r = 5 - 1.
Proof.
  apply (token_bucket_status_fresh "user_123" 5 60 12 (World true ∅));
    [lia | lia | reflexivity | reflexivity].
Defined.

(** * Further results *)

(** ** Token bucket: admission, refill and result ranges *)


Lemma HMGET_missing key (d : db) :
  d !! key = None -> fst (HMGET key d) = inr None.
Proof. intros H. unfold HMGET. rewrite H. reflexivity. Qed.

Lemma QZ_ge_1 C : 1 <= C -> (1 <= QZ C)%Q.
Proof. intros H. change 1%Q with (QZ 1). apply QZ_le. lia. Qed.





Lemma round_half_even_QZ z : round_half_even (QZ z) = z.
Proof.
  unfold round_half_even. unfold QZ at 1. rewrite Qfloor_Z.
  assert (E : Qlt_bool (QZ z - QZ z) (1 # 2) = true).
  { apply Qlt_bool_true. lra. }
  unfold QZ in *. now rewrite E.
Qed.

Lemma format_3f_QZ z : (format_3f (QZ z) == QZ z)%Q.
Proof.
  unfold format_3f.
  assert (E : (QZ z * 1000 == QZ (z * 1000))%Q).
  { unfold QZ. rewrite inject_Z_mult. reflexivity. }
  rewrite (round_half_even_comp _ _ E), round_half_even_QZ.
  unfold QZ, Qeq. simpl. lia.
Qed.

Lemma format_3f_nonneg q : (0 <= q)%Q -> (0 <= format_3f q)%Q.
Proof.
  intros H. apply format_3f_mono in H.
  assert (E : (format_3f 0 == 0)%Q) by reflexivity. lra.
Qed.

Lemma Qfloor_nonneg q : (0 <= q)%Q -> 0 <= Qfloor q.
Proof. intros H. apply Qfloor_resp_le in H. exact H. Qed.

Lemma Qfloor_le_QZ q z : (q <= QZ z)%Q -> Qfloor q <= z.
Proof.
  intros H. apply Qfloor_resp_le in H. unfold QZ in H.
  rewrite Qfloor_Z in H. exact H.
Qed.

Lemma Qfloor_unit q : (0 <= q < 1)%Q -> Qfloor q = 0.
Proof.
  intros [H0 H1]. pose proof (Qfloor_nonneg q H0).
  pose proof (Qfloor_le q) as Hf.
  destruct (Z_lt_le_dec (Qfloor q) 1) as [|Hge]; [lia|].
  exfalso. apply QZ_le in Hge. unfold QZ in Hge. change (inject_Z 1) with 1%Q in Hge.
  lra.
Qed.

Lemma reset_time_range C rate c W :
  (0 < rate)%Q -> (0 <= c)%Q -> (0 <= QZ C)%Q -> (QZ C / rate == QZ W)%Q ->
  (0 <= reset_time (QZ C) rate c <= QZ W)%Q.
Proof.
  intros Hr Hc HC HW. unfold reset_time.
  destruct (Qlt_bool 0 (QZ C - c)) eqn:E1; simpl.
  - apply Qlt_bool_true in E1.
    assert (E2 : Qlt_bool 0 rate = true) by (apply Qlt_bool_true; assumption).
    rewrite E2. split.
    + apply Qle_shift_div_l; [assumption|]. lra.
    + rewrite <- HW. apply Qdiv_le_compat; [assumption|lra].
  - apply Qlt_bool_false in E1. split; [lra|].
    rewrite <- HW. apply Qle_shift_div_l; [assumption|]. lra.
Qed.

(** X4.  Ranges of a token-bucket check result: [remaining] lies in
    [0, limit - 1] and is 0 on denial, [reset_in_seconds] lies in
    [0, window_seconds], and [retry_after], when present, is not
    negative. *)
Theorem token_bucket_result_ranges identifier C W now w ob :
  1 <= C -> 1 <= W -> connected w = true ->
  fst (HMGET (TokenBucket._get_key identifier) (store w)) = inr ob ->
  (forall b, ob = Some b -> (0 <= tokens b)%Q /\ (last_refill b <= now)%Q) ->
  exists r,
    fst (TokenBucket.check identifier C W now Deliver w) = inr r /\
    0 <= TokenBucket.remaining r <= C - 1 /\
    (TokenBucket.allowed r = false -> TokenBucket.remaining r = 0) /\
    (0 <= TokenBucket.reset_in_seconds r <= QZ W)%Q /\
    (forall ra, TokenBucket.retry_after r = Some ra -> (0 <= ra)%Q).
Proof.
  intros HC HW Hc Hget Hpre.
  rewrite (tb_check_run _ _ _ _ _ _ Hc HW Hget). simpl.
  set (rate := (QZ C / QZ W)%Q). set (t := refilled _ _ _ _).
  assert (Hrate : (0 < rate)%Q) by (apply rate_pos; assumption).
  pose proof (QZ_ge_1 C HC) as HC1.
  assert (Hb : (0 <= t <= QZ C)%Q).
  { unfold t. destruct ob as [b|]; simpl.
    - destruct (Hpre b eq_refl). apply refilled_bounds; auto; lra.
    - rewrite refilled_fresh. lra. }
  assert (HWr : (QZ C / rate == QZ W)%Q).
  { unfold rate. assert (0 < QZ W)%Q by (apply QZ_pos; lia). field. split; lra. }
  eexists. split; [reflexivity|]. unfold tb_result. simpl.
  destruct (consumed_spec t) as [(E & H1 & Ec)|(E & H1 & Ec)]; rewrite E, Ec.
  - split; [|split; [discriminate|split]].
    + split; [apply Qfloor_nonneg; lra|].
      apply Qfloor_le_QZ. replace (C - 1) with (C + -1) by lia.
      rewrite QZ_plus. change (QZ (-1)) with (-1)%Q. clear -Hb. lra.
    + pose proof (reset_time_range C rate (t - 1) W Hrate ltac:(lra) ltac:(lra) HWr) as [Ha Hb'].
      split; [apply format_3f_nonneg; exact Ha|].
      rewrite <- (format_3f_QZ W). apply format_3f_mono. exact Hb'.
    + intros ra Hra. discriminate.
  - rewrite (Qfloor_unit t) by lra.
    split; [lia|split; [reflexivity|split]].
    + pose proof (reset_time_range C rate t W Hrate ltac:(lra) ltac:(lra) HWr) as [Ha Hb'].
      split; [apply format_3f_nonneg; exact Ha|].
      rewrite <- (format_3f_QZ W). apply format_3f_mono. exact Hb'.
    + intros ra Hra. inversion Hra; subst ra. apply format_3f_nonneg.
      unfold retry_time.
      assert (E2 : Qlt_bool 0 rate = true) by (apply Qlt_bool_true; assumption).
      rewrite E2. apply Qle_shift_div_l; [assumption|]. lra.
Qed.

Lemma tb_status_run identifier C W now w ob :
  connected w = true -> 1 <= W ->
  fst (HMGET (TokenBucket._get_key identifier) (store w)) = inr ob ->
  fst (TokenBucket.get_status identifier C W now Deliver w)
  = inr (match ob with
         | None => TokenBucket.MkStatus 0 C 0%Q
         | Some b =>
             let t := refilled (QZ C) (QZ C / QZ W) now b in
             TokenBucket.MkStatus (Qfloor (QZ C - t)) (Qfloor t)
               (format_3f (reset_time (QZ C) (QZ C / QZ W) t))
         end).
Proof.
  intros Hc HW Hget. apply HMGET_inr in Hget as [Hget _].
  unfold TokenBucket.get_status, TokenBucket.true_div.
  destruct (W =? 0) eqn:E0; [apply Z.eqb_eq in E0; lia|].
  unfold execute_lua_script, client, round_trip. se_unfold. rewrite Hc.
  unfold TokenBucket.TOKEN_BUCKET_STATUS_LUA_SCRIPT. unfold SE.bind at 1.
  rewrite Hget. destruct ob as [b|]; simpl.
  - reflexivity.
  - rewrite trunc_QZ. reflexivity.
Qed.

Lemma Qfloor_minus_1 t : Qfloor (t - 1) = Qfloor t - 1.
Proof.
  destruct t as [n d]. unfold Qfloor, Qminus, Qplus, Qopp. simpl.
  rewrite Pos.mul_1_r, Z.mul_1_r.
  rewrite Z_div_plus by lia. lia.
Qed.

Lemma consumed_floor t :
  (Qle_bool 1 t = true <-> 1 <= Qfloor t) /\
  Qfloor (consumed t) = if Qle_bool 1 t then Qfloor t - 1 else Qfloor t.
Proof.
  assert (Hfl : 1 <= Qfloor t <-> (1 <= t)%Q).
  { split; intros H.
    - apply QZ_le in H. pose proof (Qfloor_le t). unfold QZ in H.
      change (inject_Z 1) with 1%Q in H. lra.
    - apply Qfloor_resp_le in H. exact H. }
  destruct (consumed_spec t) as [(E & H1 & Ec)|(E & H1 & Ec)]; rewrite E, Ec.
  - split; [tauto|]. apply Qfloor_minus_1.
  - split; [|reflexivity]. split; [discriminate|].
    intros H. apply Hfl in H. lra.
Qed.

(** X5.  The token-bucket status predicts the check made at the same instant:
    the check is allowed exactly when the status reports at least one
    remaining token, and its [remaining] is the status's, less the token
    it consumed. *)
Theorem token_bucket_status_predicts_check identifier C W now w ob :
  1 <= W -> connected w = true ->
  fst (HMGET (TokenBucket._get_key identifier) (store w)) = inr ob ->
  exists s r,
    fst (TokenBucket.get_status identifier C W now Deliver w) = inr s /\
    fst (TokenBucket.check identifier C W now Deliver
           (snd (TokenBucket.get_status identifier C W now Deliver w)))
    = inr r /\
    (TokenBucket.allowed r = true <-> 1 <= TokenBucket.status_remaining s) /\
    TokenBucket.remaining r
    = if TokenBucket.allowed r
      then TokenBucket.status_remaining s - 1
      else TokenBucket.status_remaining s.
Proof.
  intros HW Hc Hget. rewrite tb_status_world.
  rewrite (tb_status_run _ _ _ _ _ _ Hc HW Hget).
  rewrite (tb_check_run _ _ _ _ _ _ Hc HW Hget). simpl.
  eexists _, _. split; [reflexivity|]. split; [reflexivity|].
  unfold tb_result. destruct ob as [b|]; simpl.
  - apply consumed_floor.
  - rewrite refilled_fresh.
    pose proof (consumed_floor (QZ C)) as Hf.
    assert (E : Qfloor (QZ C) = C) by (unfold QZ; apply Qfloor_Z).
    rewrite !E in Hf. exact Hf.
Qed.

(** ** Keys, frames and locality *)

Lemma tb_key_inj i j :
  TokenBucket._get_key i = TokenBucket._get_key j -> i = j.
Proof.
  unfold TokenBucket._get_key, TokenBucket.KEY_PREFIX. intros H.
  cbv in H. congruence.
Qed.

Lemma sw_key_inj i j :
  SlidingWindow._get_key i = SlidingWindow._get_key j -> i = j.
Proof.
  unfold SlidingWindow._get_key, SlidingWindow.KEY_PREFIX. intros H.
  cbv in H. congruence.
Qed.

Lemma tb_sw_key_ne i j :
  TokenBucket._get_key i <> SlidingWindow._get_key j.
Proof.
  unfold TokenBucket._get_key, SlidingWindow._get_key,
    TokenBucket.KEY_PREFIX, SlidingWindow.KEY_PREFIX. intros H.
  cbv in H. discriminate.
Qed.

Ltac db_step :=
  match goal with
  | |- context [decide (?a = ?b)] => destruct (decide (a = b))
  | |- context [?a <? ?b] => destruct (Z.ltb_spec a b)
  | |- context [?a <=? ?b] => destruct (Z.leb_spec a b)
  | H : ?d !! ?k = _ |- context [?d !! ?k] => rewrite H
  | |- context [<[?k := _]> _ !! ?k] => rewrite lookup_insert_eq
  | |- context [delete ?k _ !! ?k] => rewrite lookup_delete_eq
  end; simpl.

Ltac frame_rewrite :=
  repeat first [rewrite lookup_insert_ne by assumption
               |rewrite lookup_delete_ne by assumption].

Lemma tb_script_frame key key' C rate now W d :
  key' <> key ->
  snd (TokenBucket.TOKEN_BUCKET_LUA_SCRIPT key C rate now W d) !! key'
  = d !! key'.
Proof.
  intros Hne. assert (Hne' : key <> key') by congruence.
  unfold TokenBucket.TOKEN_BUCKET_LUA_SCRIPT. se_unfold.
  unfold HMGET, HSET, EXPIRE.
  destruct (d !! key) as [[[b|z] l]|] eqn:E; simpl; [| reflexivity |].
  - destruct (Qle_bool 1 _); simpl; repeat db_step; frame_rewrite; reflexivity.
  - destruct (Qle_bool 1 _); simpl; repeat db_step; frame_rewrite; reflexivity.
Qed.

Lemma tb_script_local key C rate now W (d1 d2 : db) :
  d1 !! key = d2 !! key ->
  fst (TokenBucket.TOKEN_BUCKET_LUA_SCRIPT key C rate now W d1)
  = fst (TokenBucket.TOKEN_BUCKET_LUA_SCRIPT key C rate now W d2).
Proof.
  intros H. unfold TokenBucket.TOKEN_BUCKET_LUA_SCRIPT. se_unfold.
  unfold HMGET, HSET, EXPIRE.
  destruct (d2 !! key) as [[[b|z] l]|] eqn:E; rewrite H; simpl; [| reflexivity |].
  - destruct (Qle_bool 1 _); simpl; rewrite H; simpl; repeat db_step; reflexivity.
  - destruct (Qle_bool 1 _); simpl; rewrite H; simpl; repeat db_step; reflexivity.
Qed.

Lemma tb_status_script_local key C rate now (d1 d2 : db) :
  d1 !! key = d2 !! key ->
  fst (TokenBucket.TOKEN_BUCKET_STATUS_LUA_SCRIPT key C rate now d1)
  = fst (TokenBucket.TOKEN_BUCKET_STATUS_LUA_SCRIPT key C rate now d2).
Proof.
  intros H. unfold TokenBucket.TOKEN_BUCKET_STATUS_LUA_SCRIPT. se_unfold.
  unfold HMGET. rewrite H.
  destruct (d2 !! key) as [[[b|z] l]|]; reflexivity.
Qed.

Lemma sw_script_local key L W now rnd (d1 d2 : db) :
  d1 !! key = d2 !! key ->
  fst (SlidingWindow.SLIDING_WINDOW_LUA_SCRIPT key L W now rnd d1)
  = fst (SlidingWindow.SLIDING_WINDOW_LUA_SCRIPT key L W now rnd d2).
Proof.
  intros H. unfold SlidingWindow.SLIDING_WINDOW_LUA_SCRIPT. se_unfold.
  unfold ZREMRANGEBYSCORE, ZCARD, ZADD, EXPIRE, ZRANGE_0_0_WITHSCORES.
  destruct (d2 !! key) as [[[b|z] l]|] eqn:E; rewrite H; simpl.
  - reflexivity.
  - repeat first [rewrite H; simpl | db_step];
      first [reflexivity | exfalso; lia | exfalso; congruence].
  - repeat first [rewrite H; simpl | db_step];
      first [reflexivity | exfalso; lia | exfalso; congruence].
Qed.

Lemma sw_status_script_local key L W now (d1 d2 : db) :
  d1 !! key = d2 !! key ->
  fst (SlidingWindow.SLIDING_WINDOW_STATUS_LUA_SCRIPT key L W now d1)
  = fst (SlidingWindow.SLIDING_WINDOW_STATUS_LUA_SCRIPT key L W now d2).
Proof.
  intros H. unfold SlidingWindow.SLIDING_WINDOW_STATUS_LUA_SCRIPT. se_unfold.
  unfold ZREMRANGEBYSCORE, ZCARD, ZRANGE_0_0_WITHSCORES.
  destruct (d2 !! key) as [[[b|z] l]|] eqn:E; rewrite H; simpl.
  - reflexivity.
  - repeat first [rewrite H; simpl | db_step];
      first [reflexivity | exfalso; lia | exfalso; congruence].
  - repeat first [rewrite H; simpl | db_step];
      first [reflexivity | exfalso; lia | exfalso; congruence].
Qed.

Lemma exec_local {A} n (s : script A) w1 w2 :
  connected w1 = connected w2 ->
  fst (s (store w1)) = fst (s (store w2)) ->
  fst (execute_lua_script n s w1) = fst (execute_lua_script n s w2).
Proof.
  intros Hc Hs. unfold execute_lua_script, client, round_trip. se_unfold.
  rewrite Hc. destruct (connected w2); simpl; [|reflexivity].
  destruct n as [|e|e]; simpl;
    [|destruct (is_RedisError e); reflexivity
     |destruct (is_RedisError e); reflexivity].
  destruct (s (store w1)) as [[e1|a1] d1], (s (store w2)) as [[e2|a2] d2];
    simpl in *; inversion Hs; subst; [destruct (is_RedisError e2)|]; reflexivity.
Qed.

Lemma tb_check_local i C W now n w1 w2 :
  connected w1 = connected w2 ->
  store w1 !! TokenBucket._get_key i = store w2 !! TokenBucket._get_key i ->
  fst (TokenBucket.check i C W now n w1) = fst (TokenBucket.check i C W now n w2).
Proof.
  intros Hc Hk. unfold TokenBucket.check, TokenBucket.true_div. se_unfold.
  destruct (W =? 0); [reflexivity|].
  pose proof (exec_local n
    (TokenBucket.TOKEN_BUCKET_LUA_SCRIPT (TokenBucket._get_key i) (QZ C)
       (QZ C / QZ W) now (QZ W)) w1 w2 Hc
    (tb_script_local _ _ _ _ _ _ _ Hk)) as He.
  destruct (execute_lua_script _ _ w1) as [[e1|[[[a1 b1] c1] d1]] w1'],
           (execute_lua_script _ _ w2) as [[e2|[[[a2 b2] c2] d2]] w2'];
    simpl in *; inversion He; subst; reflexivity.
Qed.

Lemma tb_status_local i C W now n w1 w2 :
  connected w1 = connected w2 ->
  store w1 !! TokenBucket._get_key i = store w2 !! TokenBucket._get_key i ->
  fst (TokenBucket.get_status i C W now n w1)
  = fst (TokenBucket.get_status i C W now n w2).
Proof.
  intros Hc Hk. unfold TokenBucket.get_status, TokenBucket.true_div. se_unfold.
  destruct (W =? 0); [reflexivity|].
  pose proof (exec_local n
    (TokenBucket.TOKEN_BUCKET_STATUS_LUA_SCRIPT (TokenBucket._get_key i) (QZ C)
       (QZ C / QZ W) now) w1 w2 Hc
    (tb_status_script_local _ _ _ _ _ _ Hk)) as He.
  destruct (execute_lua_script _ _ w1) as [[e1|[[a1 b1] c1]] w1'],
           (execute_lua_script _ _ w2) as [[e2|[[a2 b2] c2]] w2'];
    simpl in *; inversion He; subst; reflexivity.
Qed.

Lemma sw_check_local i L W t r n w1 w2 :
  connected w1 = connected w2 ->
  store w1 !! SlidingWindow._get_key i = store w2 !! SlidingWindow._get_key i ->
  fst (SlidingWindow.check i L W t r n w1)
  = fst (SlidingWindow.check i L W t r n w2).
Proof.
  intros Hc Hk. rewrite !sw_check_result. f_equal.
  apply exec_local; [assumption|]. apply sw_script_local. assumption.
Qed.

Lemma sw_status_local i L W t n w1 w2 :
  connected w1 = connected w2 ->
  store w1 !! SlidingWindow._get_key i = store w2 !! SlidingWindow._get_key i ->
  fst (SlidingWindow.get_status i L W t n w1)
  = fst (SlidingWindow.get_status i L W t n w2).
Proof.
  intros Hc Hk. unfold SlidingWindow.get_status. se_unfold.
  pose proof (exec_local n
    (SlidingWindow.SLIDING_WINDOW_STATUS_LUA_SCRIPT (SlidingWindow._get_key i)
       L W (SlidingWindow.current_time_ms t)) w1 w2 Hc
    (sw_status_script_local _ _ _ _ _ _ Hk)) as He.
  destruct (execute_lua_script _ _ w1) as [[e1|[[a1 b1] c1]] w1'],
           (execute_lua_script _ _ w2) as [[e2|[[a2 b2] c2]] w2'];
    simpl in *; inversion He; subst; reflexivity.
Qed.

Lemma tb_check_world i C W now n w :
  snd (TokenBucket.check i C W now n w) = w \/
  snd (TokenBucket.check i C W now n w)
  = snd (execute_lua_script n
           (TokenBucket.TOKEN_BUCKET_LUA_SCRIPT (TokenBucket._get_key i)
              (QZ C) (QZ C / QZ W) now (QZ W)) w).
Proof.
  unfold TokenBucket.check, TokenBucket.true_div. se_unfold.
  destruct (W =? 0); [left; reflexivity|]. right.
  destruct (execute_lua_script _ _ _) as [[e|[[[r0 r1] r2] r3]] w']; reflexivity.
Qed.

Lemma tb_reset_world i n w :
  snd (TokenBucket.reset i n w) = snd (delete_key n (TokenBucket._get_key i) w).
Proof.
  unfold TokenBucket.reset. se_unfold.
  destruct (delete_key _ _ _) as [[e|b] w']; reflexivity.
Qed.

Lemma zrem_frame key key' c (d : db) :
  key' <> key -> snd (ZREMRANGEBYSCORE key c d) !! key' = d !! key'.
Proof.
  intros Hne. assert (Hne' : key <> key') by congruence.
  unfold ZREMRANGEBYSCORE.
  destruct (d !! key) as [[[b|z] l]|]; simpl; try reflexivity.
  destruct (decide (zkeep c z = ∅)); simpl; frame_rewrite; reflexivity.
Qed.

Lemma after_tb_frame a o n w :
  connected (Ops.after_tb a o n w) = connected w /\
  forall k, k <> TokenBucket._get_key a ->
            store (Ops.after_tb a o n w) !! k = store w !! k.
Proof.
  destruct o as [l s t r|l s t|]; simpl.
  - destruct (tb_check_world a l s t n w) as [-> | ->]; [auto|].
    destruct (exec_world n (TokenBucket.TOKEN_BUCKET_LUA_SCRIPT
                (TokenBucket._get_key a) (QZ l) (QZ l / QZ s) t (QZ s)) w)
      as [Hc [-> | ->]]; split; auto.
    intros k Hk. apply tb_script_frame. assumption.
  - rewrite tb_status_world. auto.
  - rewrite tb_reset_world.
    destruct (delete_key_world n (TokenBucket._get_key a) w) as [Hc [-> | ->]];
      split; auto.
    intros k Hk. apply lookup_delete_ne. congruence.
Qed.

Lemma after_sw_frame a o n w :
  connected (Ops.after_sw a o n w) = connected w /\
  forall k, k <> SlidingWindow._get_key a ->
            store (Ops.after_sw a o n w) !! k = store w !! k.
Proof.
  destruct o as [l s t r|l s t|]; simpl.
  - rewrite sw_check_world.
    destruct (exec_world n (SlidingWindow.SLIDING_WINDOW_LUA_SCRIPT
                (SlidingWindow._get_key a) l s (SlidingWindow.current_time_ms t) r) w)
      as [Hc [-> | ->]]; split; auto.
    intros k Hk. apply sw_script_frame. assumption.
  - rewrite sw_status_world.
    destruct (exec_world n (SlidingWindow.SLIDING_WINDOW_STATUS_LUA_SCRIPT
                (SlidingWindow._get_key a) l s (SlidingWindow.current_time_ms t)) w)
      as [Hc [-> | ->]]; split; auto.
    intros k Hk. rewrite sw_status_state. apply zrem_frame. assumption.
  - rewrite sw_reset_world.
    destruct (delete_key_world n (SlidingWindow._get_key a) w) as [Hc [-> | ->]];
      split; auto.
    intros k Hk. apply lookup_delete_ne. congruence.
Qed.

(** X6.  Identifiers are isolated: whatever one limiter call on identifier [a]
    does (check, status or reset, delivered or failed), the results of a
    check or a status call of the same limiter on another identifier [b]
    are the same as without it. *)
Theorem identifiers_do_not_interfere a b o n w L W clock rnd n' :
  a <> b ->
  fst (TokenBucket.check b L W clock n' (Ops.after_tb a o n w))
  = fst (TokenBucket.check b L W clock n' w) /\
  fst (TokenBucket.get_status b L W clock n' (Ops.after_tb a o n w))
  = fst (TokenBucket.get_status b L W clock n' w) /\
  fst (SlidingWindow.check b L W clock rnd n' (Ops.after_sw a o n w))
  = fst (SlidingWindow.check b L W clock rnd n' w) /\
  fst (SlidingWindow.get_status b L W clock n' (Ops.after_sw a o n w))
  = fst (SlidingWindow.get_status b L W clock n' w).
Proof.
  intros Hab.
  destruct (after_tb_frame a o n w) as [Hc1 Hf1].
  destruct (after_sw_frame a o n w) as [Hc2 Hf2].
  assert (Htb : TokenBucket._get_key b <> TokenBucket._get_key a).
  { intros H. apply tb_key_inj in H. congruence. }
  assert (Hsw : SlidingWindow._get_key b <> SlidingWindow._get_key a).
  { intros H. apply sw_key_inj in H. congruence. }
  repeat split.
  - apply tb_check_local; auto.
  - apply tb_status_local; auto.
  - apply sw_check_local; auto.
  - apply sw_status_local; auto.
Qed.

(** X7.  The two algorithms are isolated, also for the same identifier: a
    token-bucket call never changes what the sliding window answers, and
    conversely. *)
Theorem algorithms_do_not_interfere a b o n w L W clock rnd n' :
  fst (SlidingWindow.check b L W clock rnd n' (Ops.after_tb a o n w))
  = fst (SlidingWindow.check b L W clock rnd n' w) /\
  fst (SlidingWindow.get_status b L W clock n' (Ops.after_tb a o n w))
  = fst (SlidingWindow.get_status b L W clock n' w) /\
  fst (TokenBucket.check b L W clock n' (Ops.after_sw a o n w))
  = fst (TokenBucket.check b L W clock n' w) /\
  fst (TokenBucket.get_status b L W clock n' (Ops.after_sw a o n w))
  = fst (TokenBucket.get_status b L W clock n' w).
Proof.
  destruct (after_tb_frame a o n w) as [Hc1 Hf1].
  destruct (after_sw_frame a o n w) as [Hc2 Hf2].
  pose proof (tb_sw_key_ne a b) as H1.
  pose proof (tb_sw_key_ne b a) as H2.
  repeat split.
  - apply sw_check_local; auto.
  - apply sw_status_local; auto.
  - apply tb_check_local; auto.
  - apply tb_status_local; auto.
Qed.

(** ** Sliding window: the script in closed form *)

Lemma zmin_score_spec (z : gmap string Z) :
  match zmin_score z with
  | None => z = ∅
  | Some s => (exists m, z !! m = Some s) /\
              forall m v, z !! m = Some v -> s <= v
  end.
Proof.
  unfold zmin_score.
  apply (map_fold_weak_ind
           (fun r (m : gmap string Z) =>
              match r with
              | None => m = ∅
              | Some s => (exists k, m !! k = Some s) /\
                          forall k v, m !! k = Some v -> s <= v
              end)); [reflexivity|].
  intros i x m r Hi IH. destruct r as [a|].
  - destruct IH as [[k Hk] Hmin]. split.
    + destruct (Z.min_spec x a) as [[_ ->]|[_ ->]].
      * exists i. apply lookup_insert_eq.
      * exists k. rewrite lookup_insert_ne by congruence. exact Hk.
    + intros k' v Hv. destruct (decide (i = k')) as [->|Hne].
      * rewrite lookup_insert_eq in Hv. inversion Hv. lia.
      * rewrite lookup_insert_ne in Hv by assumption.
        specialize (Hmin k' v Hv). lia.
  - subst m. split.
    + exists i. apply lookup_insert_eq.
    + intros k' v Hv. destruct (decide (i = k')) as [->|Hne].
      * rewrite lookup_insert_eq in Hv. inversion Hv. lia.
      * rewrite lookup_insert_ne, lookup_empty in Hv by assumption. discriminate.
Qed.

Lemma zmin_score_empty : zmin_score ∅ = None.
Proof. unfold zmin_score. apply map_fold_empty. Qed.

Lemma zkeep_empty_map c : zkeep c ∅ = ∅.
Proof. unfold zkeep. apply map_filter_empty. Qed.

Lemma insert_nonempty (z : gmap string Z) m s : <[m := s]> z <> ∅.
Proof. apply insert_non_empty. Qed.

(** The sorted set the script leaves under the key. *)
Lemma sw_script_run key L W now rnd (d : db) :
  (forall b l, d !! key <> Some (Entry (VHash b) l)) -> 1 <= W ->
  let z' := zkeep (now - W * 1000) (zset_at d key) in
  let c := Z.of_nat (size z') in
  let z'' := if c <? L
             then <[SlidingWindow.member_name now rnd := now]> z' else z' in
  SlidingWindow.SLIDING_WINDOW_LUA_SCRIPT key L W now rnd d
  = (inr (if c <? L then 1 else 0,
          if c <? L then L - c - 1 else 0,
          format_3f match zmin_score z'' with
                    | Some o => SlidingWindow.until_expiry o W now
                    | None => QZ W
                    end,
          format_3f (if c <? L then 0%Q
                     else match zmin_score z' with
                          | Some o => SlidingWindow.until_expiry o W now
                          | None => 0%Q
                          end)),
     if decide (z'' = ∅) then delete key d
     else <[key := Entry (VZSet z'') (Some (W * 2))]> d).
Proof.
  intros Hnh HW. unfold zset_at.
  unfold SlidingWindow.SLIDING_WINDOW_LUA_SCRIPT. se_unfold.
  unfold ZREMRANGEBYSCORE, ZCARD, ZADD, EXPIRE, ZRANGE_0_0_WITHSCORES.
  assert (Hins : forall (z : gmap string Z) m s, <[m := s]> z <> ∅)
    by (intros; apply insert_non_empty).
  assert (Httl : (W * 2 <=? 0) = false) by (apply Z.leb_gt; lia).
  destruct (d !! key) as [[[b|z] l]|] eqn:E; simpl.
  - exfalso. eapply Hnh. reflexivity.
  - destruct (decide (zkeep (now - W * 1000) z = ∅)) as [He|Hne]; simpl.
    + rewrite He, lookup_delete_eq. simpl. rewrite map_size_empty. simpl.
      change (Z.of_nat 0) with 0.
      destruct (Z.ltb_spec 0 L); simpl.
      * rewrite lookup_delete_eq. simpl. rewrite lookup_insert_eq. simpl.
        rewrite Httl. simpl. rewrite lookup_insert_eq. simpl.
        rewrite insert_insert_eq, insert_delete_eq.
        destruct (decide (_ = ∅)) as [Hx|_]; [exfalso; exact (Hins _ _ _ Hx)|].
        reflexivity.
      * rewrite !lookup_delete_eq. simpl.
        rewrite zmin_score_empty.
        destruct (decide (∅ = ∅)); [reflexivity|congruence].
    + rewrite lookup_insert_eq. simpl.
      destruct (Z.ltb_spec (Z.of_nat (size (zkeep (now - W * 1000) z))) L); simpl.
      * rewrite lookup_insert_eq. simpl. rewrite lookup_insert_eq. simpl.
        rewrite Httl. simpl. rewrite lookup_insert_eq. simpl.
        rewrite !insert_insert_eq.
        destruct (decide (_ = ∅)) as [Hx|_]; [exfalso; exact (Hins _ _ _ Hx)|].
        reflexivity.
      * rewrite !lookup_insert_eq. simpl. rewrite Httl. simpl.
        rewrite lookup_insert_eq. simpl. rewrite !insert_insert_eq.
        destruct (decide (_ = ∅)) as [Hx|_]; [congruence|]. reflexivity.
  - rewrite zkeep_empty_map, map_size_empty. simpl. rewrite E. simpl.
    change (Z.of_nat 0) with 0.
    destruct (Z.ltb_spec 0 L); simpl.
    + rewrite E. simpl. rewrite lookup_insert_eq. simpl.
      rewrite Httl. simpl. rewrite lookup_insert_eq. simpl.
      rewrite insert_insert_eq.
      destruct (decide (_ = ∅)) as [Hx|_]; [exfalso; exact (Hins _ _ _ Hx)|].
      reflexivity.
    + rewrite !E. simpl. rewrite zmin_score_empty.
      destruct (decide (∅ = ∅)); [|congruence].
      rewrite delete_id by assumption. reflexivity.
Qed.

Lemma sw_check_run i L W t rnd w :
  connected w = true -> 1 <= W ->
  (forall b l, store w !! SlidingWindow._get_key i <> Some (Entry (VHash b) l)) ->
  let key := SlidingWindow._get_key i in
  let now := SlidingWindow.current_time_ms t in
  let z' := zkeep (window_start W t) (zset_at (store w) key) in
  let c := Z.of_nat (size z') in
  let z'' := if c <? L
             then <[SlidingWindow.member_name now rnd := now]> z' else z' in
  SlidingWindow.check i L W t rnd Deliver w
  = (inr (SlidingWindow.Result (c <? L)
            (if c <? L then L - c - 1 else 0)
            (format_3f match zmin_score z'' with
                       | Some o => SlidingWindow.until_expiry o W now
                       | None => QZ W
                       end)
            (if c <? L then None
             else Some (format_3f match zmin_score z' with
                                  | Some o => SlidingWindow.until_expiry o W now
                                  | None => 0%Q
                                  end))),
     World true (if decide (z'' = ∅) then delete key (store w)
                 else <[key := Entry (VZSet z'') (Some (W * 2))]> (store w))).
Proof.
  intros Hc HW Hnh key now z' c z''. subst z'' c z'. unfold window_start.
  fold now.
  unfold SlidingWindow.check. se_unfold.
  unfold execute_lua_script, client, round_trip. se_unfold. rewrite Hc.
  fold key. fold now.
  rewrite (sw_script_run key L W now rnd (store w) Hnh HW). simpl.
  rewrite Hc.
  destruct (Z.of_nat (size (zkeep (now - W * 1000) (zset_at (store w) key)))
            <? L); reflexivity.
Qed.

Lemma sw_status_run i L W t w :
  connected w = true ->
  (forall b l, store w !! SlidingWindow._get_key i <> Some (Entry (VHash b) l)) ->
  let key := SlidingWindow._get_key i in
  let now := SlidingWindow.current_time_ms t in
  let z' := zkeep (window_start W t) (zset_at (store w) key) in
  let c := Z.of_nat (size z') in
  fst (SlidingWindow.get_status i L W t Deliver w)
  = inr (SlidingWindow.MkStatus c (math_max 0 (L - c))
           (format_3f match zmin_score z' with
                      | Some o => SlidingWindow.until_expiry o W now
                      | None => QZ W
                      end)).
Proof.
  intros Hc Hnh key now z' c. subst z' c. unfold zset_at, window_start.
  fold now. fold key.
  unfold SlidingWindow.get_status. se_unfold.
  unfold execute_lua_script, client, round_trip. se_unfold. rewrite Hc.
  fold key. fold now.
  unfold SlidingWindow.SLIDING_WINDOW_STATUS_LUA_SCRIPT. se_unfold.
  unfold ZREMRANGEBYSCORE, ZCARD, ZRANGE_0_0_WITHSCORES.
  destruct (store w !! key) as [[[b|z] l]|] eqn:E; simpl.
  - exfalso. eapply Hnh. exact E.
  - destruct (decide (zkeep (now - W * 1000) z = ∅)) as [He|Hne]; simpl.
    + rewrite He, !lookup_delete_eq. simpl. rewrite zmin_score_empty.
      rewrite map_size_empty. reflexivity.
    + rewrite !lookup_insert_eq. simpl. reflexivity.
  - rewrite !E. simpl. rewrite zkeep_empty_map, zmin_score_empty, map_size_empty.
    reflexivity.
Qed.

(** X8.  A sliding-window check is allowed exactly when fewer than [limit]
    recorded requests are newer than [now - window]; [remaining] is then
    [limit - count - 1], and 0 on denial. *)
Theorem sliding_window_admission identifier L W clock rnd w :
  1 <= W -> connected w = true ->
  (forall b l, store w !! SlidingWindow._get_key identifier
               <> Some (Entry (VHash b) l)) ->
  let c := Z.of_nat (size (zkeep (window_start W clock)
                             (zset_at (store w)
                                (SlidingWindow._get_key identifier)))) in
  exists r,
    fst (SlidingWindow.check identifier L W clock rnd Deliver w) = inr r /\
    (SlidingWindow.allowed r = true <-> c < L) /\
    SlidingWindow.remaining r = (if c <? L then L - c - 1 else 0).
Proof.
  intros HW Hc Hnh c.
  rewrite (sw_check_run _ _ _ _ _ _ Hc HW Hnh). simpl. fold c.
  eexists. split; [reflexivity|]. simpl. split; [|reflexivity].
  apply Z.ltb_lt.
Qed.

Lemma zkeep_lookup c (z : gmap string Z) m s :
  zkeep c z !! m = Some s <-> z !! m = Some s /\ c < s.
Proof. unfold zkeep. apply map_lookup_filter_Some. Qed.

Lemma until_expiry_nonneg o W now : (0 <= SlidingWindow.until_expiry o W now)%Q.
Proof.
  unfold SlidingWindow.until_expiry.
  destruct (Qlt_bool _ 0) eqn:E; [lra|]. apply Qlt_bool_false in E. exact E.
Qed.

Lemma until_expiry_pos o W now :
  now - W * 1000 < o -> ((1 # 1000) <= SlidingWindow.until_expiry o W now)%Q.
Proof.
  intros H. unfold SlidingWindow.until_expiry.
  assert (Hq : ((1 # 1000) <= QZ (o + W * 1000 - now) / 1000)%Q).
  { unfold Qle, Qdiv, Qmult, Qinv, QZ. simpl. lia. }
  destruct (Qlt_bool _ 0) eqn:E; [apply Qlt_bool_true in E; lra|exact Hq].
Qed.

Lemma size_pos_nonempty (z : gmap string Z) : (0 < size z)%nat -> z <> ∅.
Proof. intros H ->. rewrite map_size_empty in H. lia. Qed.

(** X9.  A denied sliding-window check reports [remaining = 0] and a
    [retry_after] equal to [reset_in_seconds], which is at least one
    millisecond. *)
Theorem sliding_window_denied_retry identifier L W clock rnd w r :
  1 <= L -> 1 <= W -> connected w = true ->
  (forall b l, store w !! SlidingWindow._get_key identifier
               <> Some (Entry (VHash b) l)) ->
  fst (SlidingWindow.check identifier L W clock rnd Deliver w) = inr r ->
  SlidingWindow.allowed r = false ->
  SlidingWindow.remaining r = 0 /\
  SlidingWindow.retry_after r = Some (SlidingWindow.reset_in_seconds r) /\
  ((1 # 1000) <= SlidingWindow.reset_in_seconds r)%Q.
Proof.
  intros HL HW Hc Hnh Hr Hden.
  rewrite (sw_check_run _ _ _ _ _ _ Hc HW Hnh) in Hr. simpl in Hr.
  inversion Hr; subst r; clear Hr. simpl in *.
  set (z' := zkeep _ _) in *.
  destruct (Z.ltb_spec (Z.of_nat (size z')) L) as [|Hge]; [discriminate|].
  split; [reflexivity|].
  pose proof (zmin_score_spec z') as Hmin.
  destruct (zmin_score z') as [o|].
  - split; [reflexivity|].
    destruct Hmin as [[m Hm] _]. apply zkeep_lookup in Hm as [_ Ho].
    assert (E : format_3f (1 # 1000) = 1 # 1000) by reflexivity.
    rewrite <- E at 1. apply format_3f_mono, until_expiry_pos. exact Ho.
  - exfalso. rewrite Hmin, map_size_empty in Hge. simpl in Hge. lia.
Qed.

(** X10.  Once every recorded request is at least one window old, the check is
    answered as for an identifier that was never seen: allowed, with
    [limit - 1] remaining. *)
Theorem sliding_window_expired_is_fresh identifier L W clock rnd w w0 :
  1 <= L -> 1 <= W -> connected w = true ->
  (forall b l, store w !! SlidingWindow._get_key identifier
               <> Some (Entry (VHash b) l)) ->
  (forall m s, zset_at (store w) (SlidingWindow._get_key identifier) !! m
               = Some s -> s <= window_start W clock) ->
  connected w0 = true ->
  store w0 !! SlidingWindow._get_key identifier = None ->
  fst (SlidingWindow.check identifier L W clock rnd Deliver w)
  = fst (SlidingWindow.check identifier L W clock rnd Deliver w0) /\
  exists r,
    fst (SlidingWindow.check identifier L W clock rnd Deliver w) = inr r /\
    SlidingWindow.allowed r = true /\ SlidingWindow.remaining r = L - 1.
Proof.
  intros HL HW Hc Hnh Hold Hc0 Hk0.
  rewrite (sw_check_fresh _ _ _ _ _ _ HL HW Hc0 Hk0).
  rewrite (sw_check_run _ _ _ _ _ _ Hc HW Hnh). simpl.
  assert (He : zkeep (window_start W clock)
                 (zset_at (store w) (SlidingWindow._get_key identifier)) = ∅).
  { apply map_eq. intros m. rewrite lookup_empty.
    destruct (zkeep _ _ !! m) as [s|] eqn:E; [|reflexivity].
    apply zkeep_lookup in E as [E1 E2]. specialize (Hold m s E1). lia. }
  rewrite He, map_size_empty. change (Z.of_nat 0) with 0.
  destruct (Z.ltb_spec 0 L); [|lia].
  rewrite insert_empty, zmin_score_singleton.
  replace (L - 0 - 1) with (L - 1) by lia.
  split; [reflexivity|]. eexists. repeat split.
Qed.

(** X11.  The state a sliding-window check leaves behind: only entries newer
    than the window start, at most one more than were live before, a
    time-to-live of twice the window when entries remain, and no key at
    all when none does. *)
Theorem sliding_window_state_after_check identifier L W clock rnd w :
  1 <= W -> connected w = true ->
  (forall b l, store w !! SlidingWindow._get_key identifier
               <> Some (Entry (VHash b) l)) ->
  let key := SlidingWindow._get_key identifier in
  let w' := snd (SlidingWindow.check identifier L W clock rnd Deliver w) in
  (forall m s, zset_at (store w') key !! m = Some s ->
               window_start W clock < s) /\
  (zset_at (store w') key <> ∅ ->
   store w' !! key = Some (Entry (VZSet (zset_at (store w') key))
                             (Some (2 * W)))) /\
  (zset_at (store w') key = ∅ -> store w' !! key = None) /\
  zcard (store w') key
  <= Z.of_nat (size (zkeep (window_start W clock) (zset_at (store w) key))) + 1.
Proof.
  intros HW Hc Hnh key w'. subst w'.
  rewrite (sw_check_run _ _ _ _ _ _ Hc HW Hnh). simpl. fold key.
  set (z' := zkeep (window_start W clock) (zset_at (store w) key)).
  set (now := SlidingWindow.current_time_ms clock).
  set (z'' := if Z.of_nat (size z') <? L then _ else z').
  assert (Hin : forall m s, z'' !! m = Some s -> window_start W clock < s).
  { intros m s. unfold z''. destruct (_ <? L).
    - destruct (decide (SlidingWindow.member_name now rnd = m)) as [->|Hne].
      + rewrite lookup_insert_eq. intros E. inversion E.
        unfold window_start. fold now. lia.
      + rewrite lookup_insert_ne by assumption. intros E.
        apply zkeep_lookup in E. tauto.
    - intros E. apply zkeep_lookup in E. tauto. }
  assert (Hsz : Z.of_nat (size z'') <= Z.of_nat (size z') + 1).
  { unfold z''. destruct (_ <? L); [|lia].
    rewrite map_size_insert. destruct (z' !! _); unfold id; lia. }
  unfold zcard, zset_at.
  destruct (decide (z'' = ∅)) as [He|Hne].
  - rewrite lookup_delete_eq. rewrite map_size_empty.
    repeat split; try (intros; rewrite ?lookup_empty in *; congruence). lia.
  - rewrite lookup_insert_eq. repeat split.
    + exact Hin.
    + intros _. do 3 f_equal. lia.
    + intros He. congruence.
    + exact Hsz.
Qed.

(** ** Sliding window: status, ranges and bursts *)

Lemma math_max_spec x y : math_max x y = Z.max x y.
Proof. unfold math_max. destruct (Z.ltb_spec x y); lia. Qed.

(** X12.  The sliding-window status reports the number of live entries, and
    predicts the check made at the same instant: allowed exactly when the
    status reports at least one remaining request. *)
Theorem sliding_window_status_predicts_check identifier L W clock rnd w :
  1 <= W -> connected w = true ->
  (forall b l, store w !! SlidingWindow._get_key identifier
               <> Some (Entry (VHash b) l)) ->
  exists s r,
    fst (SlidingWindow.get_status identifier L W clock Deliver w) = inr s /\
    fst (SlidingWindow.check identifier L W clock rnd Deliver
           (snd (SlidingWindow.get_status identifier L W clock Deliver w)))
    = inr r /\
    SlidingWindow.requests_used s
    = Z.of_nat (size (zkeep (window_start W clock)
                        (zset_at (store w)
                           (SlidingWindow._get_key identifier)))) /\
    (SlidingWindow.allowed r = true <-> 1 <= SlidingWindow.status_remaining s) /\
    SlidingWindow.remaining r
    = if SlidingWindow.allowed r
      then SlidingWindow.status_remaining s - 1
      else SlidingWindow.status_remaining s.
Proof.
  intros HW Hc Hnh.
  assert (Hchk : fst (SlidingWindow.check identifier L W clock rnd Deliver
                    (snd (SlidingWindow.get_status identifier L W clock Deliver w)))
                 = fst (SlidingWindow.check identifier L W clock rnd Deliver w)).
  { destruct (sw_status_worlds identifier L W clock Deliver w) as [-> | ->];
      [reflexivity|].
    apply (sw_check_absorb identifier L W clock rnd Deliver
             (window_start W clock) w). lia. }
  rewrite Hchk, (sw_status_run _ _ _ _ _ Hc Hnh).
  rewrite (sw_check_run _ _ _ _ _ _ Hc HW Hnh). simpl.
  set (c := Z.of_nat (size _)).
  eexists _, _. split; [reflexivity|]. split; [reflexivity|]. simpl.
  split; [reflexivity|]. rewrite math_max_spec.
  destruct (Z.ltb_spec c L); split; try split; try lia; try discriminate; auto.
Qed.

(** X13.  Ranges of the sliding-window results: for any limit, [remaining],
    [reset_in_seconds], [retry_after], [requests_used] and the status's
    [remaining] and [reset_in_seconds] are never negative. *)
Theorem sliding_window_result_ranges identifier L W clock rnd w :
  1 <= W -> connected w = true ->
  (forall b l, store w !! SlidingWindow._get_key identifier
               <> Some (Entry (VHash b) l)) ->
  exists r s,
    fst (SlidingWindow.check identifier L W clock rnd Deliver w) = inr r /\
    fst (SlidingWindow.get_status identifier L W clock Deliver w) = inr s /\
    0 <= SlidingWindow.remaining r /\
    (0 <= SlidingWindow.reset_in_seconds r)%Q /\
    (forall ra, SlidingWindow.retry_after r = Some ra -> (0 <= ra)%Q) /\
    0 <= SlidingWindow.requests_used s /\
    0 <= SlidingWindow.status_remaining s /\
    (0 <= SlidingWindow.status_reset_in_seconds s)%Q.
Proof.
  intros HW Hc Hnh.
  rewrite (sw_status_run _ _ _ _ _ Hc Hnh).
  rewrite (sw_check_run _ _ _ _ _ _ Hc HW Hnh). simpl.
  set (c := Z.of_nat (size _)).
  assert (HWq : (0 <= QZ W)%Q) by (apply QZ_nonneg; lia).
  assert (Hfmt : forall (o : option Z) (dflt : Q), (0 <= dflt)%Q ->
            (0 <= format_3f match o with
                            | Some o => SlidingWindow.until_expiry o W
                                          (SlidingWindow.current_time_ms clock)
                            | None => dflt
                            end)%Q).
  { intros o dflt Hd. apply format_3f_nonneg.
    destruct o; [apply until_expiry_nonneg|exact Hd]. }
  eexists _, _. split; [reflexivity|]. split; [reflexivity|]. simpl.
  repeat split.
  - destruct (Z.ltb_spec c L); lia.
  - apply Hfmt, HWq.
  - intros ra Hra. destruct (c <? L); [discriminate|].
    inversion Hra; subst ra. apply Hfmt. lra.
  - unfold c. lia.
  - rewrite math_max_spec. lia.
  - apply Hfmt, HWq.
Qed.

Lemma member_name_inj now r1 r2 :
  SlidingWindow.member_name now r1 = SlidingWindow.member_name now r2 ->
  r1 = r2.
Proof.
  unfold SlidingWindow.member_name. intros H.
  apply (inj (String.app _)) in H. apply (inj (String.app _)) in H.
  apply (inj pretty) in H. exact H.
Qed.

Lemma zkeep_all c (z : gmap string Z) :
  (forall m s, z !! m = Some s -> c < s) -> zkeep c z = z.
Proof. intros H. unfold zkeep. apply map_filter_id. intros i x Hx. simpl. eauto. Qed.

Lemma zset_at_insert (d : db) key z l :
  zset_at (<[key := Entry (VZSet z) l]> d) key = z.
Proof. unfold zset_at. rewrite lookup_insert_eq. reflexivity. Qed.

Lemma not_hash_insert (d : db) key z l :
  forall b l', <[key := Entry (VZSet z) l]> d !! key
               <> Some (Entry (VHash b) l').
Proof. intros b l'. rewrite lookup_insert_eq. discriminate. Qed.

(** Checks at one clock reading with the nonces [rnds], none of which was
    used by the [used] checks already stored. *)
Lemma sw_burst_aux identifier L W clock :
  1 <= L -> 1 <= W ->
  let key := SlidingWindow._get_key identifier in
  let now := SlidingWindow.current_time_ms clock in
  forall rnds used w,
    NoDup rnds -> (forall r, r ∈ rnds -> r ∉ used) ->
    connected w = true ->
    (forall b l, store w !! key <> Some (Entry (VHash b) l)) ->
    (forall m s, zset_at (store w) key !! m = Some s ->
       s = now /\ exists r, r ∈ used /\ m = SlidingWindow.member_name now r) ->
    Z.of_nat (size (zset_at (store w) key)) = Z.min (Z.of_nat (length used)) L ->
    forall j x,
      SlidingWindowRun.results identifier
        (map (fun r => SlidingWindowRun.CallCheck L W clock r Deliver) rnds) w
        !! j = Some x ->
      exists r, x = inr r /\
        SlidingWindow.allowed r = (Z.of_nat (length used + j) <? L) /\
        SlidingWindow.remaining r
        = if Z.of_nat (length used + j) <? L
          then L - 1 - Z.of_nat (length used + j) else 0.
Proof.
  intros HL HW key now.
  induction rnds as [|r0 rnds IH]; intros used w Hnd Hfresh Hc Hnh Hmem Hsz j x Hx.
  { simpl in Hx. rewrite lookup_nil in Hx. discriminate. }
  simpl in Hx.
  pose proof (sw_check_run identifier L W clock r0 w Hc HW Hnh) as Hrun.
  simpl in Hrun. fold key in Hrun, Hmem, Hsz, Hnh. fold now in Hrun.
  assert (Hws : window_start W clock < now) by (unfold window_start; fold now; lia).
  rewrite zkeep_all in Hrun
    by (intros m s Hs; apply Hmem in Hs as [-> _]; exact Hws).
  set (z := zset_at (store w) key) in *.
  rewrite Hsz in Hrun.
  destruct (SlidingWindow.check identifier L W clock r0 Deliver w) as [res w'].
  inversion Hrun; subst res w'; clear Hrun.
  apply NoDup_cons in Hnd as [Hr0 Hnd].
  assert (Hr0u : r0 ∉ used) by (apply Hfresh; left).
  assert (Hz0 : z !! SlidingWindow.member_name now r0 = None).
  { destruct (z !! SlidingWindow.member_name now r0) as [s|] eqn:E; [|reflexivity].
    apply Hmem in E as [_ (r & Hr & Heq)]. apply member_name_inj in Heq.
    subst r. contradiction. }
  destruct j as [|j].
  - simpl in Hx. inversion Hx; subst x. eexists. split; [reflexivity|]. simpl.
    rewrite Nat.add_0_r.
    destruct (Z.ltb_spec (Z.of_nat (length used)) L) as [Hlt|Hge].
    + rewrite Z.min_l by lia. destruct (Z.ltb_spec (Z.of_nat (length used)) L); [|lia].
      split; [reflexivity|]. lia.
    + rewrite Z.min_r by lia. destruct (Z.ltb_spec L L); [lia|]. auto.
  - simpl in Hx.
    replace (length used + S j)%nat with (length (r0 :: used) + j)%nat
      by (simpl; lia).
    eapply (IH (r0 :: used)); [exact Hnd| | | | | |exact Hx].
    + intros r Hr Hin. apply elem_of_cons in Hin as [->|Hin];
        [contradiction|]. apply (Hfresh r); [right; exact Hr|exact Hin].
    + reflexivity.
    + simpl. destruct (Z.min (Z.of_nat (length used)) L <? L);
        (destruct (decide (_ = ∅)); [|apply not_hash_insert]);
        intros b l; rewrite lookup_delete_eq; discriminate.
    + simpl. fold key.
      assert (Hzs : forall m s, z !! m = Some s ->
                s = now /\ exists r, r ∈ r0 :: used /\
                                     m = SlidingWindow.member_name now r).
      { intros m s Hs. apply Hmem in Hs as [-> (r & Hr & ->)].
        split; [reflexivity|]. exists r. split; [right; exact Hr|reflexivity]. }
      destruct (Z.min (Z.of_nat (length used)) L <? L);
        (destruct (decide (_ = ∅)) as [He|Hne];
         [unfold zset_at; rewrite lookup_delete_eq; intros m s Hs;
          rewrite lookup_empty in Hs; discriminate
         |rewrite zset_at_insert]); try exact Hzs.
      intros m s Hs.
      destruct (decide (SlidingWindow.member_name now r0 = m)) as [<-|Hne'].
      * rewrite lookup_insert_eq in Hs. inversion Hs. split; [reflexivity|].
        exists r0. split; [left|reflexivity].
      * rewrite lookup_insert_ne in Hs by assumption. apply Hzs. exact Hs.
    + simpl. fold key.
      destruct (Z.ltb_spec (Z.min (Z.of_nat (length used)) L) L) as [Hlt|Hge].
      * destruct (decide (_ = ∅)) as [He|Hne];
          [exfalso; exact (insert_non_empty _ _ _ He)|].
        rewrite zset_at_insert, map_size_insert, Hz0. lia.
      * destruct (decide (z = ∅)) as [He|Hne].
        { exfalso. rewrite He, map_size_empty in Hsz. simpl in Hsz. lia. }
        rewrite zset_at_insert. lia.
Qed.

Lemma sw_results_length identifier cs :
  Forall (fun c => SlidingWindowRun.is_check c = true) cs ->
  forall w, length (SlidingWindowRun.results identifier cs w) = length cs.
Proof.
  induction cs as [|c cs IH]; intros Hall w; [reflexivity|].
  apply Forall_cons in Hall as [Hc Hall].
  destruct c as [l s t r n|l s t n]; [|discriminate]. simpl.
  destruct (SlidingWindow.check identifier l s t r n w) as [res w'].
  simpl. f_equal. apply IH. exact Hall.
Qed.

Lemma zset_at_missing (d : db) key : d !! key = None -> zset_at d key = ∅.
Proof. intros H. unfold zset_at. rewrite H. reflexivity. Qed.

Lemma not_hash_missing (d : db) key :
  d !! key = None -> forall b l, d !! key <> Some (Entry (VHash b) l).
Proof. intros H b l. rewrite H. discriminate. Qed.

(** X14.  A burst on a fresh identifier at one clock reading, with pairwise
    distinct nonces: the first [limit] checks are allowed with
    [remaining] counting down from [limit - 1] to 0, and every later
    check is denied with [remaining = 0]. *)
Theorem sliding_window_burst identifier L W clock rnds w :
  1 <= L -> 1 <= W -> connected w = true ->
  store w !! SlidingWindow._get_key identifier = None ->
  NoDup rnds ->
  let rs := SlidingWindowRun.results identifier
              (map (fun r => SlidingWindowRun.CallCheck L W clock r Deliver)
                 rnds) w in
  length rs = length rnds /\
  forall j x,
    rs !! j = Some x ->
    exists r, x = inr r /\
      SlidingWindow.allowed r = (Z.of_nat j <? L) /\
      SlidingWindow.remaining r
      = if Z.of_nat j <? L then L - 1 - Z.of_nat j else 0.
Proof.
  intros HL HW Hc Hk Hnd rs. subst rs.
  split.
  { rewrite sw_results_length; [apply length_map|].
    apply Forall_map, Forall_forall. reflexivity. }
  intros j x Hx.
  apply (sw_burst_aux identifier L W clock HL HW rnds [] w Hnd); try assumption.
  - intros r _ Hin. apply elem_of_nil in Hin. exact Hin.
  - apply not_hash_missing. exact Hk.
  - intros m s. rewrite (zset_at_missing _ _ Hk), lookup_empty. discriminate.
  - rewrite (zset_at_missing _ _ Hk), map_size_empty. simpl. lia.
Qed.

Lemma sw_collision_aux identifier L W clock rnd :
  2 <= L -> 1 <= W ->
  let key := SlidingWindow._get_key identifier in
  let now := SlidingWindow.current_time_ms clock in
  forall k w,
    connected w = true ->
    (forall b l, store w !! key <> Some (Entry (VHash b) l)) ->
    zset_at (store w) key = {[SlidingWindow.member_name now rnd := now]} ->
    forall j x,
      SlidingWindowRun.results identifier
        (replicate k (SlidingWindowRun.CallCheck L W clock rnd Deliver)) w
        !! j = Some x ->
      exists r, x = inr r /\ SlidingWindow.allowed r = true /\
                SlidingWindow.remaining r = L - 2.
Proof.
  intros HL HW key now.
  induction k as [|k IH]; intros w Hc Hnh Hz j x Hx.
  { simpl in Hx. rewrite lookup_nil in Hx. discriminate. }
  simpl in Hx.
  pose proof (sw_check_run identifier L W clock rnd w Hc HW Hnh) as Hrun.
  simpl in Hrun. fold key in Hrun, Hz, Hnh. fold now in Hrun.
  rewrite Hz in Hrun.
  assert (Hws : window_start W clock < now) by (unfold window_start; fold now; lia).
  rewrite zkeep_all in Hrun
    by (intros m s Hs; apply lookup_singleton_Some in Hs as [_ <-]; exact Hws).
  rewrite map_size_singleton, insert_singleton_eq in Hrun.
  change (Z.of_nat 1) with 1 in Hrun.
  destruct (Z.ltb_spec 1 L) as [_|]; [|lia].
  destruct (decide (_ = ∅)) as [He|_];
    [exfalso; exact (map_non_empty_singleton _ _ He)|].
  destruct (SlidingWindow.check identifier L W clock rnd Deliver w) as [res w'].
  inversion Hrun; subst res w'; clear Hrun.
  destruct j as [|j]; simpl in Hx.
  - inversion Hx; subst x. eexists. repeat split. simpl. lia.
  - eapply IH; [| | |exact Hx].
    + reflexivity.
    + apply not_hash_insert.
    + simpl. apply zset_at_insert.
Qed.

(** X15.  When checks in the same millisecond draw the same nonce, their member
    names coincide and ZADD overwrites one entry: with a limit of at
    least 2, any number of such checks on a fresh identifier is allowed,
    and only one request is ever counted. *)
Theorem sliding_window_nonce_collision identifier L W clock rnd k w :
  2 <= L -> 1 <= W -> connected w = true ->
  store w !! SlidingWindow._get_key identifier = None ->
  let rs := SlidingWindowRun.results identifier
              (replicate k (SlidingWindowRun.CallCheck L W clock rnd Deliver))
              w in
  length rs = k /\
  forall j x,
    rs !! j = Some x ->
    exists r, x = inr r /\ SlidingWindow.allowed r = true /\
              SlidingWindow.remaining r
              = if decide (j = 0%nat) then L - 1 else L - 2.
Proof.
  intros HL HW Hc Hk rs. subst rs.
  split.
  { rewrite sw_results_length.
    - apply length_replicate.
    - apply Forall_replicate. reflexivity. }
  intros j x Hx. destruct k as [|k].
  { simpl in Hx. rewrite lookup_nil in Hx. discriminate. }
  simpl in Hx.
  pose proof (sw_check_run identifier L W clock rnd w Hc HW
                (not_hash_missing _ _ Hk)) as Hrun.
  simpl in Hrun. rewrite (zset_at_missing _ _ Hk) in Hrun.
  rewrite zkeep_empty_map, map_size_empty, insert_empty in Hrun.
  change (Z.of_nat 0) with 0 in Hrun.
  destruct (Z.ltb_spec 0 L) as [_|]; [|lia].
  destruct (decide (_ = ∅)) as [He|_];
    [exfalso; exact (map_non_empty_singleton _ _ He)|].
  destruct (SlidingWindow.check identifier L W clock rnd Deliver w) as [res w'].
  inversion Hrun; subst res w'; clear Hrun.
  destruct j as [|j]; simpl in Hx.
  - inversion Hx; subst x. eexists. repeat split. simpl. lia.
  - destruct (decide (S j = 0%nat)); [lia|].
    eapply (sw_collision_aux identifier L W clock rnd HL HW k); [| | |exact Hx].
    + reflexivity.
    + apply not_hash_insert.
    + simpl. apply zset_at_insert.
Qed.

(** ** The reset endpoint, the handlers and the connection *)

Lemma world_true w : connected w = true -> World true (store w) = w.
Proof. intros H. rewrite <- H. apply world_eta. Qed.

(** X16.  When state exists under one of the addressed keys and the store
    answers, the reset operation returns the confirmation message, every
    addressed key is gone, and every other key is untouched. *)
Theorem reset_endpoint_clears identifier algorithm w :
  connected w = true ->
  (exists k, k ∈ Http.reset_targets identifier algorithm /\
             is_Some (store w !! k)) ->
  exists w',
    Main.reset_rate_limit identifier algorithm Deliver Deliver w
    = (inr {| Main.message := "Rate limit reset for " +:+ identifier |}, w') /\
    connected w' = true /\
    (forall k, k ∈ Http.reset_targets identifier algorithm ->
               store w' !! k = None) /\
    (forall k, k ∉ Http.reset_targets identifier algorithm ->
               store w' !! k = store w !! k).
Proof.
  intros Hc (k & Hk & [v Hv]).
  pose proof (tb_sw_key_ne identifier identifier) as Hne.
  unfold Main.reset_rate_limit. se_unfold.
  destruct algorithm as [[|]|]; simpl in *.
  - apply list_elem_of_singleton in Hk. subst k.
    rewrite (tb_reset_run _ _ Hc), Hv. simpl.
    eexists. split; [reflexivity|]. simpl. split; [reflexivity|]. split.
    + intros k Hk. apply list_elem_of_singleton in Hk. subst k.
      apply lookup_delete_eq.
    + intros k Hk. apply lookup_delete_ne. intros Heq. apply Hk.
      rewrite <- Heq. left.
  - apply list_elem_of_singleton in Hk. subst k.
    rewrite (sw_reset_run _ _ Hc), Hv. simpl.
    eexists. split; [reflexivity|]. simpl. split; [reflexivity|]. split.
    + intros k Hk. apply list_elem_of_singleton in Hk. subst k.
      apply lookup_delete_eq.
    + intros k Hk. apply lookup_delete_ne. intros Heq. apply Hk.
      rewrite <- Heq. left.
  - rewrite (tb_reset_run _ _ Hc). simpl.
    rewrite (sw_reset_run identifier
               (World true (delete (TokenBucket._get_key identifier) (store w)))
               eq_refl). simpl.
    rewrite lookup_delete_ne by exact Hne.
    assert (Hcnt :
      ((if store w !! SlidingWindow._get_key identifier is Some _ then true else false)
       = true) \/
      ((if store w !! TokenBucket._get_key identifier is Some _ then true else false)
       = true)).
    { apply elem_of_cons in Hk as [->|Hk].
      - right. rewrite Hv. reflexivity.
      - apply list_elem_of_singleton in Hk. subst k. left. rewrite Hv. reflexivity. }
    destruct (store w !! TokenBucket._get_key identifier) as [e1|] eqn:E1;
    destruct (store w !! SlidingWindow._get_key identifier) as [e2|] eqn:E2;
      simpl in *; try (destruct Hcnt; discriminate).
    all: eexists; split; [reflexivity|]; simpl; split; [reflexivity|]; split.
    all: try (intros k' Hk'; apply elem_of_cons in Hk' as [->|Hk'];
              [rewrite lookup_delete_ne by congruence; apply lookup_delete_eq
              |apply list_elem_of_singleton in Hk'; subst k'; apply lookup_delete_eq]).
    all: intros k' Hk'; rewrite !lookup_delete_ne; [reflexivity| |];
           intros Heq; apply Hk'; rewrite <- Heq;
           first [left; reflexivity | right; left; reflexivity].
Qed.

(** What the endpoint's handlers make of an exception raised inside it. *)
Lemma reset_handlers_run {A} (e : exn) (w : world) :
  SE.handle
    [(is_HTTPException, fun e => SE.raise e);
     (is_RedisError, fun e => SE.raise e);
     (SE.is_Exception,
      fun _ => SE.raise (HTTPException 500 "Reset failed"))] e w
  = (inl (if is_HTTPException e || is_RedisError e then e
          else HTTPException 500 "Reset failed") : exn + A, w).
Proof.
  simpl. destruct (is_HTTPException e); [reflexivity|].
  destruct (is_RedisError e); reflexivity.
Qed.

Lemma delete_key_fails n key w e :
  connected w = true -> n = FailBefore e \/ n = FailAfter e ->
  delete_key n key w
  = (inl e, match n with
            | FailAfter _ => World true (delete key (store w))
            | _ => w
            end).
Proof.
  intros Hc Hn. destruct w as [c d]. simpl in *. subst c.
  destruct Hn as [-> | ->]; unfold delete_key, client, round_trip, DEL;
    se_unfold; simpl; destruct (is_RedisError e); simpl; try reflexivity.
  all: destruct (d !! key) eqn:E; simpl; try reflexivity;
    rewrite delete_id by assumption; reflexivity.
Qed.

Lemma reset_without_client identifier algorithm n1 n2 w :
  connected w = false ->
  Main.reset_rate_limit identifier algorithm n1 n2 w
  = (inl (HTTPException 500 "Reset failed"), w).
Proof.
  intros Hc. unfold Main.reset_rate_limit, SE.try_except, SE.bind.
  assert (Htb : TokenBucket.reset identifier n1 w
                = (inl (RuntimeError
                     "Redis client not initialized. Call connect() first."), w)).
  { unfold TokenBucket.reset, delete_key, client. se_unfold. rewrite Hc.
    reflexivity. }
  assert (Hsw : SlidingWindow.reset identifier n2 w
                = (inl (RuntimeError
                     "Redis client not initialized. Call connect() first."), w)).
  { unfold SlidingWindow.reset, delete_key, client. se_unfold. rewrite Hc.
    reflexivity. }
  destruct algorithm as [[|]|]; simpl; rewrite ?Htb, ?Hsw; reflexivity.
Qed.

(** X17.  Failures of the reset operation: without a client it raises HTTP 500
    "Reset failed" (the [RuntimeError] is converted); a store error
    raised by the first limiter reached leaves as it is, any other
    exception becomes HTTP 500 "Reset failed"; the keyspace is unchanged
    in each case. *)
Theorem reset_endpoint_errors identifier algorithm n1 n2 w e :
  let outcome (x : exn) :=
    if is_HTTPException x || is_RedisError x then x
    else HTTPException 500 "Reset failed" in
  (connected w = false ->
   Main.reset_rate_limit identifier algorithm n1 n2 w
   = (inl (HTTPException 500 "Reset failed"), w)) /\
  (connected w = true -> Main.is_token_bucket algorithm = true ->
   n1 = FailBefore e ->
   Main.reset_rate_limit identifier algorithm n1 n2 w = (inl (outcome e), w)) /\
  (connected w = true -> algorithm = Some Main.SLIDING_WINDOW ->
   n2 = FailBefore e ->
   Main.reset_rate_limit identifier algorithm n1 n2 w = (inl (outcome e), w)).
Proof.
  intros outcome. split; [|split].
  - apply reset_without_client.
  - intros Hc Halg ->. unfold Main.reset_rate_limit, SE.try_except, SE.bind.
    rewrite Halg.
    assert (Htb : TokenBucket.reset identifier (FailBefore e) w = (inl e, w)).
    { unfold TokenBucket.reset. se_unfold.
      rewrite (delete_key_fails _ _ _ e Hc) by (left; reflexivity). reflexivity. }
    rewrite Htb. apply reset_handlers_run.
  - intros Hc -> ->. unfold Main.reset_rate_limit, SE.try_except, SE.bind.
    assert (Hsw : SlidingWindow.reset identifier (FailBefore e) w = (inl e, w)).
    { unfold SlidingWindow.reset. se_unfold.
      rewrite (delete_key_fails _ _ _ e Hc) by (left; reflexivity). reflexivity. }
    simpl. unfold SE.ret. rewrite Hsw. apply reset_handlers_run.
Qed.

(** X18.  Resetting all algorithms is not atomic: when the token-bucket
    deletion is delivered and the sliding-window one fails with a store
    error, the operation raises that error although the token-bucket
    state is already gone (and the sliding-window state is still there
    when the request was lost before reaching the server). *)
Theorem reset_all_is_not_atomic identifier n2 w e :
  connected w = true -> is_RedisError e = true ->
  n2 = FailBefore e \/ n2 = FailAfter e ->
  exists w',
    Main.reset_rate_limit identifier None Deliver n2 w = (inl e, w') /\
    store w' !! TokenBucket._get_key identifier = None /\
    (n2 = FailBefore e ->
     store w' !! SlidingWindow._get_key identifier
     = store w !! SlidingWindow._get_key identifier).
Proof.
  intros Hc He Hn. unfold Main.reset_rate_limit, SE.try_except, SE.bind.
  simpl. rewrite (tb_reset_run _ _ Hc). unfold SE.ret.
  set (w1 := World true (delete (TokenBucket._get_key identifier) (store w))).
  assert (Hsw : SlidingWindow.reset identifier n2 w1
                = (inl e, match n2 with
                          | FailAfter _ =>
                              World true (delete (SlidingWindow._get_key identifier)
                                            (store w1))
                          | _ => w1
                          end)).
  { unfold SlidingWindow.reset. se_unfold.
    rewrite (delete_key_fails n2 _ w1 e eq_refl Hn). reflexivity. }
  assert (Hex : is_HTTPException e = false) by (destruct e; simpl in *; congruence).
  destruct (store w !! TokenBucket._get_key identifier); rewrite Hsw; simpl;
    rewrite Hex, He;
    (eexists; split; [reflexivity|]; split;
     [destruct Hn as [-> | ->]; simpl;
      rewrite ?lookup_delete_ne by (apply not_eq_sym, tb_sw_key_ne);
      apply lookup_delete_eq
     |intros ->; simpl; apply lookup_delete_ne, tb_sw_key_ne]).
Qed.

Lemma limiter_reset_raises n key w e :
  fst (delete_key n key w) = inl e ->
  (connected w = false /\
   e = RuntimeError "Redis client not initialized. Call connect() first.") \/
  n = FailBefore e \/ n = FailAfter e.
Proof.
  unfold delete_key, client, round_trip, DEL. se_unfold.
  destruct (connected w); simpl.
  - destruct n as [|e'|e']; simpl.
    + destruct (store w !! key); simpl; discriminate.
    + destruct (is_RedisError e'); simpl; intros H; inversion H; auto.
    + destruct (is_RedisError e'); simpl; intros H; inversion H; auto.
  - intros H. inversion H. auto.
Qed.

Lemma reset_raises identifier algorithm n1 n2 w x :
  (forall e, n1 = FailBefore e \/ n1 = FailAfter e \/
             n2 = FailBefore e \/ n2 = FailAfter e ->
             is_HTTPException e = false) ->
  fst (Main.reset_rate_limit identifier algorithm n1 n2 w) = inl x ->
  (x = HTTPException 404 ("No rate limit data found for " +:+ identifier) /\
   algorithm <> None) \/
  x = HTTPException 500 "Reset failed" \/
  is_RedisError x = true.
Proof.
  intros Hnet.
  assert (Hlim : forall n key w0 e,
            (n = n1 \/ n = n2) -> fst (delete_key n key w0) = inl e ->
            (if is_HTTPException e || is_RedisError e then e
             else HTTPException 500 "Reset failed")
            = HTTPException 500 "Reset failed" \/
            is_RedisError (if is_HTTPException e || is_RedisError e then e
                           else HTTPException 500 "Reset failed") = true).
  { intros n key w0 e Hn He.
    apply limiter_reset_raises in He as [[_ ->]|He]; [left; reflexivity|].
    assert (Hh : is_HTTPException e = false).
    { apply Hnet. destruct Hn as [-> | ->]; tauto. }
    rewrite Hh. simpl. destruct (is_RedisError e) eqn:Er; auto. }
  unfold Main.reset_rate_limit, SE.try_except, SE.bind.
  unfold TokenBucket.reset, SlidingWindow.reset. se_unfold.
  destruct algorithm as [[|]|]; simpl.
  - destruct (delete_key n1 _ w) as [[e|b] w'] eqn:E; simpl.
    + pose proof (Hlim n1 _ w e (or_introl eq_refl) ltac:(rewrite E; reflexivity)) as H.
      destruct (is_HTTPException e); simpl in *;
        [|destruct (is_RedisError e)]; simpl; intros Hx; inversion Hx; subst x;
        destruct H; auto.
    + destruct b; simpl; intros Hx; inversion Hx.
      left. split; [reflexivity|discriminate].
  - destruct (delete_key n2 _ w) as [[e|b] w'] eqn:E; simpl.
    + pose proof (Hlim n2 _ w e (or_intror eq_refl) ltac:(rewrite E; reflexivity)) as H.
      destruct (is_HTTPException e); simpl in *;
        [|destruct (is_RedisError e)]; simpl; intros Hx; inversion Hx; subst x;
        destruct H; auto.
    + destruct b; simpl; intros Hx; inversion Hx.
      left. split; [reflexivity|discriminate].
  - destruct (delete_key n1 _ w) as [[e|b] w'] eqn:E; simpl.
    + pose proof (Hlim n1 _ w e (or_introl eq_refl) ltac:(rewrite E; reflexivity)) as H.
      destruct (is_HTTPException e); simpl in *;
        [|destruct (is_RedisError e)]; simpl; intros Hx; inversion Hx; subst x;
        destruct H; auto.
    + destruct (delete_key n2 _ w') as [[e|b'] w''] eqn:E'; simpl.
      * pose proof (Hlim n2 _ w' e (or_intror eq_refl) ltac:(rewrite E'; reflexivity)) as H.
        destruct (is_HTTPException e); simpl in *;
          [|destruct (is_RedisError e)]; simpl; intros Hx; inversion Hx; subst x;
          destruct H; auto.
      * destruct b, b'; simpl; intros Hx; inversion Hx.
Qed.

(** X19.  What the client of the reset route can receive: the confirmation, a
    404 (only with a selected algorithm), a 500 with detail
    "Reset failed" and no error code, or the 503 of the store-error
    handler with error code REDIS_ERROR.  The generic 500 handler
    (INTERNAL_ERROR) is never reached. *)
Theorem reset_request_statuses identifier algorithm n1 n2 w :
  (forall e, n1 = FailBefore e \/ n1 = FailAfter e \/
             n2 = FailBefore e \/ n2 = FailAfter e ->
             is_HTTPException e = false) ->
  match fst (Http.reset_request identifier algorithm n1 n2 w) with
  | inr body =>
      Main.message body = "Rate limit reset for " +:+ identifier
  | inl resp =>
      (Http.status_code resp = 404 /\ algorithm <> None /\
       Http.detail resp = "No rate limit data found for " +:+ identifier) \/
      (Http.status_code resp = 500 /\ Http.detail resp = "Reset failed" /\
       Http.error_code resp = None) \/
      (Http.status_code resp = 503 /\
       Http.error_code resp = Some "REDIS_ERROR")
  end.
Proof.
  intros Hnet. unfold Http.reset_request.
  destruct (Main.reset_rate_limit identifier algorithm n1 n2 w)
    as [[x|body] w'] eqn:E; simpl.
  - assert (Hx : fst (Main.reset_rate_limit identifier algorithm n1 n2 w) = inl x)
      by (rewrite E; reflexivity).
    destruct (reset_raises _ _ _ _ _ _ Hnet Hx) as [[-> Ha]|[->|Hr]]; simpl.
    + left. repeat split. exact Ha.
    + right. left. repeat split.
    + right. right. destruct x; simpl in *; try discriminate; auto.
  - revert E. unfold Main.reset_rate_limit, SE.try_except, SE.bind.
    unfold TokenBucket.reset, SlidingWindow.reset. se_unfold.
    destruct algorithm as [[|]|]; simpl.
    + destruct (delete_key n1 _ w) as [[e|b] w1]; simpl.
      * destruct (is_HTTPException e); simpl;
          [|destruct (is_RedisError e)]; simpl; discriminate.
      * destruct b; simpl; intros H; inversion H; reflexivity.
    + destruct (delete_key n2 _ w) as [[e|b] w1]; simpl.
      * destruct (is_HTTPException e); simpl;
          [|destruct (is_RedisError e)]; simpl; discriminate.
      * destruct b; simpl; intros H; inversion H; reflexivity.
    + destruct (delete_key n1 _ w) as [[e|b] w1]; simpl.
      * destruct (is_HTTPException e); simpl;
          [|destruct (is_RedisError e)]; simpl; discriminate.
      * destruct (delete_key n2 _ w1) as [[e|b'] w2]; simpl.
        -- destruct (is_HTTPException e); simpl;
             [|destruct (is_RedisError e)]; simpl; discriminate.
        -- destruct b, b'; simpl; intros H; inversion H; reflexivity.
Qed.

(** X20.  After [disconnect] the keyspace of the server is as before, the six
    limiter operations raise the [RuntimeError] of the [client] property
    without touching it, the reset operation answers HTTP 500
    "Reset failed", and [is_healthy] returns [False]. *)
Theorem after_disconnect identifier algorithm L W clock rnd n n' w :
  W <> 0 ->
  let w' := snd (Lifecycle.disconnect w) in
  let e := RuntimeError "Redis client not initialized. Call connect() first." in
  store w' = store w /\
  TokenBucket.check identifier L W clock n w' = (inl e, w') /\
  TokenBucket.get_status identifier L W clock n w' = (inl e, w') /\
  TokenBucket.reset identifier n w' = (inl e, w') /\
  SlidingWindow.check identifier L W clock rnd n w' = (inl e, w') /\
  SlidingWindow.get_status identifier L W clock n w' = (inl e, w') /\
  SlidingWindow.reset identifier n w' = (inl e, w') /\
  Main.reset_rate_limit identifier algorithm n n' w'
  = (inl (HTTPException 500 "Reset failed"), w') /\
  Lifecycle.is_healthy n w' = (inr false, w').
Proof.
  intros HW w' e. subst w'. simpl.
  assert (E0 : (W =? 0) = false) by (apply Z.eqb_neq; assumption).
  split; [reflexivity|].
  repeat split.
  - unfold TokenBucket.check, TokenBucket.true_div. rewrite E0. reflexivity.
  - unfold TokenBucket.get_status, TokenBucket.true_div. rewrite E0. reflexivity.
  - apply reset_without_client. reflexivity.
Qed.

(** X21.  The health operation never raises when the store fails: it reports
    "healthy" with [redis_connected = True] exactly when a client exists
    and PING is answered, and "unhealthy" with [redis_connected = False]
    otherwise; it changes nothing. *)
Theorem health_check_answers app_version n w :
  (forall e, n = FailBefore e \/ n = FailAfter e -> is_RedisError e = true) ->
  exists b : bool,
    Lifecycle.health_check app_version n w
    = (inr {| Lifecycle.status := if b then "healthy" else "unhealthy";
              Lifecycle.redis_connected := b;
              Lifecycle.version := app_version |}, w) /\
    (b = true <-> connected w = true /\ n = Deliver).
Proof.
  intros Hnet. unfold Lifecycle.health_check, Lifecycle.is_healthy,
    Lifecycle.PING, round_trip. se_unfold.
  destruct w as [c d]. simpl. destruct c; simpl.
  - destruct n as [|e|e]; simpl.
    + exists true. split; [reflexivity|]. tauto.
    + rewrite (Hnet e) by auto. simpl. exists false. split; [reflexivity|].
      split; [discriminate|]. intros [_ H]. discriminate.
    + rewrite (Hnet e) by auto. simpl. exists false. split; [reflexivity|].
      split; [discriminate|]. intros [_ H]. discriminate.
  - exists false. split; [reflexivity|]. split; [discriminate|].
    intros [H _]. discriminate.
Qed.

(** ** Token bucket: admissions over time *)





(** ** Concrete instances of the further results *)




(** X4, witness: the drained bucket, 12 seconds later. *)
Lemma token_bucket_result_ranges_witness :
  exists r,
    fst (TokenBucket.check "user_123" 5 60 12 Deliver drained_world) = inr r /\
    0 <= TokenBucket.remaining r <= 5 - 1 /\
    (TokenBucket.allowed r = false -> TokenBucket.remaining r = 0) /\
    (0 <= TokenBucket.reset_in_seconds r <= QZ 60)%Q /\
    (forall ra, TokenBucket.retry_after r = Some ra -> (0 <= ra)%Q).
Proof.
  apply (token_bucket_result_ranges "user_123" 5 60 12 drained_world
           (Some (Bucket 0 0))); [lia | lia | reflexivity | reflexivity |].
  intros b Hb. inversion Hb; subst b. split; vm_compute; discriminate.
Defined.

(** X5, witness: the drained bucket, 12 seconds later. *)
Lemma token_bucket_status_predicts_check_witness :
  exists s r,
    fst (TokenBucket.get_status "user_123" 5 60 12 Deliver drained_world)
    = inr s /\
    fst (TokenBucket.check "user_123" 5 60 12 Deliver
           (snd (TokenBucket.get_status "user_123" 5 60 12 Deliver
                   drained_world))) = inr r /\
    (TokenBucket.allowed r = true <-> 1 <= TokenBucket.status_remaining s) /\
    TokenBucket.remaining r
    = if TokenBucket.allowed r
      then TokenBucket.status_remaining s - 1
      else TokenBucket.status_remaining s.
Proof.
  apply (token_bucket_status_predicts_check "user_123" 5 60 12 drained_world
           (Some (Bucket 0 0))); [lia | reflexivity | reflexivity].
Defined.

(** X6, witness: a check of ["user_123"] before a check of ["user_456"]. *)
Lemma identifiers_do_not_interfere_witness :
  let w := World true ∅ in
  let o := Ops.OpCheck 1 60 0 7 in
  fst (TokenBucket.check "bob" 1 60 1 Deliver (Ops.after_tb "alice" o Deliver w))
  = fst (TokenBucket.check "bob" 1 60 1 Deliver w) /\
  fst (TokenBucket.get_status "bob" 1 60 1 Deliver
         (Ops.after_tb "alice" o Deliver w))
  = fst (TokenBucket.get_status "bob" 1 60 1 Deliver w) /\
  fst (SlidingWindow.check "bob" 1 60 1 8 Deliver
         (Ops.after_sw "alice" o Deliver w))
  = fst (SlidingWindow.check "bob" 1 60 1 8 Deliver w) /\
  fst (SlidingWindow.get_status "bob" 1 60 1 Deliver
         (Ops.after_sw "alice" o Deliver w))
  = fst (SlidingWindow.get_status "bob" 1 60 1 Deliver w).
Proof.
  apply (identifiers_do_not_interfere "alice" "bob" (Ops.OpCheck 1 60 0 7)
           Deliver (World true ∅) 1 60 1 8 Deliver). discriminate.
Defined.

Lemma one_request_set :
  zset_at (store Examples.one_request) (SlidingWindow._get_key "user_123")
  = {[SlidingWindow.member_name 0 7 := 0]}.
Proof. vm_compute. reflexivity. Qed.

Lemma one_request_not_hash b l :
  store Examples.one_request !! SlidingWindow._get_key "user_123"
  <> Some (Entry (VHash b) l).
Proof. vm_compute. discriminate. Qed.

Lemma empty_not_hash key b l :
  store (World true ∅) !! key <> Some (Entry (VHash b) l).
Proof. simpl. rewrite lookup_empty. discriminate. Qed.

(** X8, witness: one recorded request, limit 1. *)
Lemma sliding_window_admission_witness :
  let c := Z.of_nat (size (zkeep (window_start 60 1)
                             (zset_at (store Examples.one_request)
                                (SlidingWindow._get_key "user_123")))) in
  exists r,
    fst (SlidingWindow.check "user_123" 1 60 1 8 Deliver Examples.one_request)
    = inr r /\
    (SlidingWindow.allowed r = true <-> c < 1) /\
    SlidingWindow.remaining r = (if c <? 1 then 1 - c - 1 else 0).
Proof.
  apply (sliding_window_admission "user_123" 1 60 1 8 Examples.one_request);
    [lia | reflexivity | apply one_request_not_hash].
Defined.

(** X9, witness: one recorded request, limit 1, one second later. *)
Lemma sliding_window_denied_retry_witness :
  let r := SlidingWindow.Result false 0 (59000 # 1000) (Some (59000 # 1000)) in
  SlidingWindow.remaining r = 0 /\
  SlidingWindow.retry_after r = Some (SlidingWindow.reset_in_seconds r) /\
  ((1 # 1000) <= SlidingWindow.reset_in_seconds r)%Q.
Proof.
  intros r.
  apply (sliding_window_denied_retry "user_123" 1 60 1 8 Examples.one_request r);
    [lia | lia | reflexivity | apply one_request_not_hash
    | vm_compute; reflexivity | reflexivity].
Defined.

(** X10, witness: one recorded request, 60 seconds later. *)
Lemma sliding_window_expired_is_fresh_witness :
  fst (SlidingWindow.check "user_123" 1 60 61 8 Deliver Examples.one_request)
  = fst (SlidingWindow.check "user_123" 1 60 61 8 Deliver (World true ∅)) /\
  exists r,
    fst (SlidingWindow.check "user_123" 1 60 61 8 Deliver Examples.one_request)
    = inr r /\
    SlidingWindow.allowed r = true /\ SlidingWindow.remaining r = 1 - 1.
Proof.
  apply (sliding_window_expired_is_fresh "user_123" 1 60 61 8
           Examples.one_request (World true ∅));
    [lia | lia | reflexivity | apply one_request_not_hash | | reflexivity
    | reflexivity].
  intros m s. rewrite one_request_set. intros H.
  apply lookup_singleton_Some in H as [_ <-]. vm_compute. discriminate.
Defined.

(** X11, witness: one recorded request, one second later. *)
Lemma sliding_window_state_after_check_witness :
  let key := SlidingWindow._get_key "user_123" in
  let w' := snd (SlidingWindow.check "user_123" 1 60 1 8 Deliver
                   Examples.one_request) in
  (forall m s, zset_at (store w') key !! m = Some s -> window_start 60 1 < s) /\
  (zset_at (store w') key <> ∅ ->
   store w' !! key = Some (Entry (VZSet (zset_at (store w') key))
                             (Some (2 * 60)))) /\
  (zset_at (store w') key = ∅ -> store w' !! key = None) /\
  zcard (store w') key
  <= Z.of_nat (size (zkeep (window_start 60 1)
                       (zset_at (store Examples.one_request) key))) + 1.
Proof.
  apply (sliding_window_state_after_check "user_123" 1 60 1 8
           Examples.one_request);
    [lia | reflexivity | apply one_request_not_hash].
Defined.

(** X12, witness: one recorded request, one second later. *)
Lemma sliding_window_status_predicts_check_witness :
  exists s r,
    fst (SlidingWindow.get_status "user_123" 1 60 1 Deliver Examples.one_request)
    = inr s /\
    fst (SlidingWindow.check "user_123" 1 60 1 8 Deliver
           (snd (SlidingWindow.get_status "user_123" 1 60 1 Deliver
                   Examples.one_request))) = inr r /\
    SlidingWindow.requests_used s
    = Z.of_nat (size (zkeep (window_start 60 1)
                        (zset_at (store Examples.one_request)
                           (SlidingWindow._get_key "user_123")))) /\
    (SlidingWindow.allowed r = true <-> 1 <= SlidingWindow.status_remaining s) /\
    SlidingWindow.remaining r
    = if SlidingWindow.allowed r
      then SlidingWindow.status_remaining s - 1
      else SlidingWindow.status_remaining s.
Proof.
  apply (sliding_window_status_predicts_check "user_123" 1 60 1 8
           Examples.one_request);
    [lia | reflexivity | apply one_request_not_hash].
Defined.

(** X13, witness: one recorded request, one second later. *)
Lemma sliding_window_result_ranges_witness :
  exists r s,
    fst (SlidingWindow.check "user_123" 1 60 1 8 Deliver Examples.one_request)
    = inr r /\
    fst (SlidingWindow.get_status "user_123" 1 60 1 Deliver Examples.one_request)
    = inr s /\
    0 <= SlidingWindow.remaining r /\
    (0 <= SlidingWindow.reset_in_seconds r)%Q /\
    (forall ra, SlidingWindow.retry_after r = Some ra -> (0 <= ra)%Q) /\
    0 <= SlidingWindow.requests_used s /\
    0 <= SlidingWindow.status_remaining s /\
    (0 <= SlidingWindow.status_reset_in_seconds s)%Q.
Proof.
  apply (sliding_window_result_ranges "user_123" 1 60 1 8 Examples.one_request);
    [lia | reflexivity | apply one_request_not_hash].
Defined.

(** X14, witness: three checks with nonces 1, 2, 3 and limit 2. *)
Lemma sliding_window_burst_witness :
  let rs := SlidingWindowRun.results "user_123"
              (map (fun r => SlidingWindowRun.CallCheck 2 60 0 r Deliver)
                 [1; 2; 3]) (World true ∅) in
  length rs = length [1; 2; 3] /\
  forall j x,
    rs !! j = Some x ->
    exists r, x = inr r /\
      SlidingWindow.allowed r = (Z.of_nat j <? 2) /\
      SlidingWindow.remaining r
      = if Z.of_nat j <? 2 then 2 - 1 - Z.of_nat j else 0.
Proof.
  apply (sliding_window_burst "user_123" 2 60 0 [1; 2; 3] (World true ∅));
    [lia | lia | reflexivity | reflexivity |].
  apply (bool_decide_unpack _). vm_compute. exact I.
Defined.

(** X15, witness: five checks with the same nonce and limit 2. *)
Lemma sliding_window_nonce_collision_witness :
  let rs := SlidingWindowRun.results "user_123"
              (replicate 5 (SlidingWindowRun.CallCheck 2 60 0 7 Deliver))
              (World true ∅) in
  length rs = 5%nat /\
  forall j x,
    rs !! j = Some x ->
    exists r, x = inr r /\ SlidingWindow.allowed r = true /\
              SlidingWindow.remaining r
              = if decide (j = 0%nat) then 2 - 1 else 2 - 2.
Proof.
  apply (sliding_window_nonce_collision "user_123" 2 60 0 7 5 (World true ∅));
    [lia | lia | reflexivity | reflexivity].
Defined.

(** X16, witness: resetting all algorithms for the drained bucket. *)
Lemma reset_endpoint_clears_witness :
  exists w',
    Main.reset_rate_limit "user_123" None Deliver Deliver drained_world
    = (inr {| Main.message := "Rate limit reset for " +:+ "user_123" |}, w') /\
    connected w' = true /\
    (forall k, k ∈ Http.reset_targets "user_123" None ->
               store w' !! k = None) /\
    (forall k, k ∉ Http.reset_targets "user_123" None ->
               store w' !! k = store drained_world !! k).
Proof.
  apply (reset_endpoint_clears "user_123" None drained_world); [reflexivity|].
  exists (TokenBucket._get_key "user_123"). split; [left|].
  exists (Entry (VHash (Bucket 0 0)) (Some 120)). reflexivity.
Defined.

(** X17, witness: no client; a refused connection; an exception that is not a store error. *)
Lemma reset_endpoint_errors_witness :
  Main.reset_rate_limit "user_123" None Deliver Deliver (World false ∅)
  = (inl (HTTPException 500 "Reset failed"), World false ∅) /\
  Main.reset_rate_limit "user_123" None
    (FailBefore (ConnectionError "Connection refused")) Deliver drained_world
  = (inl (ConnectionError "Connection refused"), drained_world) /\
  Main.reset_rate_limit "user_123" (Some Main.SLIDING_WINDOW) Deliver
    (FailBefore (RuntimeError "Event loop is closed")) drained_world
  = (inl (HTTPException 500 "Reset failed"), drained_world).
Proof.
  split; [|split].
  - apply (proj1 (reset_endpoint_errors "user_123" None Deliver Deliver
                    (World false ∅) ZeroDivisionError)). reflexivity.
  - apply (proj1 (proj2 (reset_endpoint_errors "user_123" None
                           (FailBefore (ConnectionError "Connection refused"))
                           Deliver drained_world
                           (ConnectionError "Connection refused"))));
      reflexivity.
  - apply (proj2 (proj2 (reset_endpoint_errors "user_123"
                           (Some Main.SLIDING_WINDOW) Deliver
                           (FailBefore (RuntimeError "Event loop is closed"))
                           drained_world
                           (RuntimeError "Event loop is closed"))));
      reflexivity.
Defined.

(** X18, witness: the second deletion times out. *)
Lemma reset_all_is_not_atomic_witness :
  let e := TimeoutError "Timeout reading from socket" in
  exists w',
    Main.reset_rate_limit "user_123" None Deliver (FailBefore e) drained_world
    = (inl e, w') /\
    store w' !! TokenBucket._get_key "user_123" = None /\
    (FailBefore e = FailBefore e ->
     store w' !! SlidingWindow._get_key "user_123"
     = store drained_world !! SlidingWindow._get_key "user_123").
Proof.
  intros e.
  apply (reset_all_is_not_atomic "user_123" (FailBefore e) drained_world e);
    [reflexivity | reflexivity | left; reflexivity].
Defined.

(** X19, witness: the token-bucket deletion times out. *)
Lemma reset_request_statuses_witness :
  match fst (Http.reset_request "user_123" (Some Main.TOKEN_BUCKET)
               (FailBefore (TimeoutError "Timeout reading from socket"))
               Deliver drained_world) with
  | inr body =>
      Main.message body = "Rate limit reset for " +:+ "user_123"
  | inl resp =>
      (Http.status_code resp = 404 /\ Some Main.TOKEN_BUCKET <> None /\
       Http.detail resp = "No rate limit data found for " +:+ "user_123") \/
      (Http.status_code resp = 500 /\ Http.detail resp = "Reset failed" /\
       Http.error_code resp = None) \/
      (Http.status_code resp = 503 /\
       Http.error_code resp = Some "REDIS_ERROR")
  end.
Proof.
  apply (reset_request_statuses "user_123" (Some Main.TOKEN_BUCKET)
           (FailBefore (TimeoutError "Timeout reading from socket"))
           Deliver drained_world).
  intros e [H|[H|[H|H]]]; inversion H; reflexivity.
Defined.

(** X20, witness: the drained bucket after [disconnect]. *)
Lemma after_disconnect_witness :
  let w' := snd (Lifecycle.disconnect drained_world) in
  let e := RuntimeError "Redis client not initialized. Call connect() first." in
  store w' = store drained_world /\
  TokenBucket.check "user_123" 5 60 12 Deliver w' = (inl e, w') /\
  TokenBucket.get_status "user_123" 5 60 12 Deliver w' = (inl e, w') /\
  TokenBucket.reset "user_123" Deliver w' = (inl e, w') /\
  SlidingWindow.check "user_123" 5 60 12 7 Deliver w' = (inl e, w') /\
  SlidingWindow.get_status "user_123" 5 60 12 Deliver w' = (inl e, w') /\
  SlidingWindow.reset "user_123" Deliver w' = (inl e, w') /\
  Main.reset_rate_limit "user_123" None Deliver Deliver w'
  = (inl (HTTPException 500 "Reset failed"), w') /\
  Lifecycle.is_healthy Deliver w' = (inr false, w').
Proof.
  apply (after_disconnect "user_123" None 5 60 12 7 Deliver Deliver
           drained_world). lia.
Defined.

(** X21, witness: PING meets a refused connection. *)
Lemma health_check_answers_witness :
  exists b : bool,
    Lifecycle.health_check "1.0.4"
      (FailBefore (ConnectionError "Connection refused")) drained_world
    = (inr {| Lifecycle.status := if b then "healthy" else "unhealthy";
              Lifecycle.redis_connected := b;
              Lifecycle.version := "1.0.4" |}, drained_world) /\
    (b = true <->
     connected drained_world = true /\
     FailBefore (ConnectionError "Connection refused") = Deliver).
Proof.
  apply (health_check_answers "1.0.4"
           (FailBefore (ConnectionError "Connection refused")) drained_world).
  intros e [H|H]; inversion H; reflexivity.
Defined.

